(** * Agent log scorer: a shallow embedding of [agents/agent_log_scorer.py]

    The development follows the scoring pipeline of [AgentLogScorer]:
    validation, transcript extraction, keyword matching, score
    computation, risk-level classification, rule violations and the
    per-agent statistics table.

    Conventions.
    - A Python [int] is a [Z]; a Python [str] is a [string] holding its
      UTF-8 bytes (substring search on well-formed UTF-8 agrees with
      substring search on code points).
    - A decoded log is a [pyval]: the values [json.load] produces, with
      integers for numbers (numbers with a fraction or an exponent are
      outside the model).
    - A [dict] is a [gmap]; the statistics table is a [gmap] from hashed
      keys to [AgentStatistics].
    - A method that reads or mutates [self._agent_stats] is a function from
      the table to the new table and an outcome, which is a raised
      exception or a returned value. *)

From Stdlib Require Import ZArith QArith.
From stdpp Require Import base option list strings gmap fin_maps pretty.

Open Scope Z_scope.

(** ** Python values *)

#[local] Unset Elimination Schemes.
Inductive pyval :=
  | PNone
  | PBool (b : bool)
  | PInt (z : Z)
  | PStr (s : string)
  | PList (l : list pyval)
  | PDict (d : gmap string pyval).
#[local] Set Elimination Schemes.

(** [type(v).__name__] *)
Definition type_name (v : pyval) : string :=
  match v with
  | PNone => "NoneType"
  | PBool _ => "bool"
  | PInt _ => "int"
  | PStr _ => "str"
  | PList _ => "list"
  | PDict _ => "dict"
  end.

(** [d.get(k, dflt)] *)
Definition dict_get {V} (d : gmap string V) (k : string) (dflt : V) : V :=
  default dflt (d !! k).

(** [k in d] *)
Definition dict_contains {V} (d : gmap string V) (k : string) : bool :=
  bool_decide (is_Some (d !! k)).

(** ** RiskLevel *)

Inductive RiskLevel := LOW | MEDIUM | HIGH | CRITICAL.

Global Instance RiskLevel_eq_dec : EqDecision RiskLevel.
Proof. solve_decision. Defined.

Module RiskLevel.

(** [RiskLevel.value] *)
Definition value (self : RiskLevel) : string :=
  match self with
  | LOW => "LOW"
  | MEDIUM => "MEDIUM"
  | HIGH => "HIGH"
  | CRITICAL => "CRITICAL"
  end.

Definition order : list RiskLevel := [LOW; MEDIUM; HIGH; CRITICAL].

(** [order.index(self)]; every level is in [order], so the default is
    never taken. *)
Definition _get_order (self : RiskLevel) : nat :=
  default 0%nat (fst <$> list_find (λ x, x = self) order).

(** [__lt__], [__le__], [__gt__] and [__ge__] *)
Definition lt (self other : RiskLevel) : bool :=
  bool_decide (_get_order self < _get_order other)%nat.
Definition le (self other : RiskLevel) : bool :=
  bool_decide (_get_order self ≤ _get_order other)%nat.
Definition gt (self other : RiskLevel) : bool :=
  bool_decide (_get_order other < _get_order self)%nat.
Definition ge (self other : RiskLevel) : bool :=
  bool_decide (_get_order other ≤ _get_order self)%nat.

End RiskLevel.

(** ** ScoringConfig *)

Record ScoringConfig := {
  price_keywords : list string;
  legal_keywords : list string;
  risk_thresholds : gmap string Z;
  placeholder_bonus : Z;
  yaml_rules : option (gmap string (list string));
}.

(** [ScoringConfig()] *)
Definition default_config : ScoringConfig := {|
  price_keywords :=
    ["€"; "euro"; "preis"; "kostet"; "kosten"; "gebühr"; "tarif"; "$"; "usd"; "chf"];
  legal_keywords :=
    ["gesetz"; "rechtlich"; "erlaubt"; "illegal"; "legal"; "vorschrift";
     "verordnung"; "recht"];
  risk_thresholds := {[ "low" := 0; "medium" := 1; "high" := 2; "critical" := 3 ]};
  placeholder_bonus := -1;
  yaml_rules := None;
|}.

(** ** Classification *)

(** [AgentLogScorer._get_risk_level] *)
Definition _get_risk_level (config : ScoringConfig) (risk_score : Z) : RiskLevel :=
  let thresholds := risk_thresholds config in
  if risk_score <=? dict_get thresholds "low" 0 then LOW
  else if risk_score <=? dict_get thresholds "medium" 1 then MEDIUM
  else if risk_score <=? dict_get thresholds "high" 2 then HIGH
  else CRITICAL.

(** [config] with its thresholds replaced, as [get_risk_level] does. *)
Definition with_thresholds (config : ScoringConfig) (th : gmap string Z) : ScoringConfig :=
  {| price_keywords := price_keywords config;
     legal_keywords := legal_keywords config;
     risk_thresholds := th;
     placeholder_bonus := placeholder_bonus config;
     yaml_rules := yaml_rules config |}.

(** ** Strings *)

(** [needle in hay] *)
Fixpoint str_contains (needle hay : string) : bool :=
  String.prefix needle hay
  || match hay with
     | EmptyString => false
     | String _ hay' => str_contains needle hay'
     end.

Definition is_ascii_char (c : Ascii.ascii) : bool := (Ascii.N_of_ascii c <? 128)%N.

Fixpoint is_ascii (s : string) : bool :=
  match s with
  | EmptyString => true
  | String c s' => is_ascii_char c && is_ascii s'
  end.

Definition ascii_lower_char (c : Ascii.ascii) : Ascii.ascii :=
  let n := Ascii.N_of_ascii c in
  if (65 <=? n)%N && (n <=? 90)%N then Ascii.ascii_of_N (n + 32) else c.

Fixpoint ascii_lower (s : string) : string :=
  match s with
  | EmptyString => EmptyString
  | String c s' => String (ascii_lower_char c) (ascii_lower s')
  end.

(** [sep.join(parts)] for parts that are all [str] *)
Fixpoint str_join (sep : string) (parts : list string) : string :=
  match parts with
  | [] => ""
  | [p] => p
  | p :: ps => p +:+ sep +:+ str_join sep ps
  end.

(** ** Exceptions and outcomes *)

Inductive exn :=
  | ValueError (msg : string)
  | TypeError
  | AttributeError
  | KeyError (key : string).

Inductive outcome (A : Type) :=
  | Raised (e : exn)
  | Returned (a : A).
Arguments Raised {A} e.
Arguments Returned {A} a.

Global Instance outcome_ret : MRet outcome := λ A a, Returned a.
Global Instance outcome_bind : MBind outcome := λ A B k m,
  match m with
  | Raised e => Raised e
  | Returned a => k a
  end.

(** ** Built-in conversions *)

(** [bool(v)] *)
Definition py_bool (v : pyval) : bool :=
  match v with
  | PNone => false
  | PBool b => b
  | PInt z => negb (z =? 0)
  | PStr s => negb (String.eqb s "")
  | PList l => negb (bool_decide (length l = 0%nat))
  | PDict d => negb (bool_decide (size d = 0%nat))
  end.

(** Keys of the statistics table: hashable values up to Python equality
    ([True == 1], [False == 0]). *)
Inductive hkey :=
  | HNone
  | HInt (z : Z)
  | HStr (s : string).

Global Instance hkey_eq_dec : EqDecision hkey.
Proof. solve_decision. Defined.

Global Instance hkey_countable : Countable hkey.
Proof.
  refine (inj_countable'
    (λ k, match k with
          | HNone => None
          | HInt z => Some (inl z)
          | HStr s => Some (inr s)
          end)
    (λ o, match o with
          | None => HNone
          | Some (inl z) => HInt z
          | Some (inr s) => HStr s
          end) _).
  by intros [].
Defined.

(** Hashing a value used as a [dict] key; [None] stands for
    [TypeError: unhashable type]. *)
Definition hash_key (v : pyval) : option hkey :=
  match v with
  | PNone => Some HNone
  | PBool b => Some (HInt (if b then 1 else 0))
  | PInt z => Some (HInt z)
  | PStr s => Some (HStr s)
  | PList _ | PDict _ => None
  end.

(** ** Result and statistics records *)

Record ScoreResult := {
  agent_id : pyval;
  contact : pyval;
  timestamp : pyval;
  price_claim : bool;
  price_keywords_found : list string;
  legal_claim : bool;
  legal_keywords_found : list string;
  stop_triggered : bool;
  placeholder_used : bool;
  risk : Z;
  risk_level : RiskLevel;
  violations : list string;
}.

(** [result.violations = vs] *)
Definition set_violations (vs : list string) (r : ScoreResult) : ScoreResult :=
  {| agent_id := agent_id r; contact := contact r; timestamp := timestamp r;
     price_claim := price_claim r; price_keywords_found := price_keywords_found r;
     legal_claim := legal_claim r; legal_keywords_found := legal_keywords_found r;
     stop_triggered := stop_triggered r; placeholder_used := placeholder_used r;
     risk := risk r; risk_level := risk_level r; violations := vs |}.

(** [ScoreResult.is_critical] *)
Definition is_critical (self : ScoreResult) : bool :=
  bool_decide (risk_level self ∈ [HIGH; CRITICAL]).

(** [stat_agent_id] is the field [agent_id] of [AgentStatistics], the name
    being taken by the field of [ScoreResult]. *)
Record AgentStatistics := {
  stat_agent_id : pyval;
  total_interactions : Z;
  total_risk_score : Z;
  price_claims : Z;
  legal_claims : Z;
  stops_triggered : Z;
  placeholders_used : Z;
  critical_incidents : Z;
  risk_levels : gmap string Z;
}.

(** [AgentStatistics(agent_id=a)] with every other field at its default *)
Definition AgentStatistics_new (a : pyval) : AgentStatistics := {|
  stat_agent_id := a;
  total_interactions := 0;
  total_risk_score := 0;
  price_claims := 0;
  legal_claims := 0;
  stops_triggered := 0;
  placeholders_used := 0;
  critical_incidents := 0;
  risk_levels := {[ "LOW" := 0; "MEDIUM" := 0; "HIGH" := 0; "CRITICAL" := 0 ]};
|}.

(** Python's true division [a / b] of two integers, for [b] other than 0:
    the exact quotient, before it is rounded to a float. *)
Definition true_div (a b : Z) : Q := (inject_Z a / inject_Z b)%Q.

(** [AgentStatistics.average_risk] *)
Definition average_risk (self : AgentStatistics) : Q :=
  if total_interactions self =? 0 then 0%Q
  else true_div (total_risk_score self) (total_interactions self).

(** [AgentStatistics.stop_rate] *)
Definition stop_rate (self : AgentStatistics) : Q :=
  let claims := price_claims self + legal_claims self in
  if claims =? 0 then 1%Q
  else true_div (stops_triggered self) claims.

(** ** Validation *)

(** [AgentLogScorer.validate_log] *)
Definition validate_log (log : pyval) : bool * string :=
  match log with
  | PDict d =>
      if negb (dict_contains d "agent_id") then
        (false, "Pflichtfeld 'agent_id' fehlt")
      else
        match d !! "transcript" with
        | Some (PList _) | None => (true, "")
        | Some _ => (false, "Feld 'transcript' muss eine Liste sein")
        end
  | _ => (false, "Log muss ein Dictionary sein, erhalten: " +:+ type_name log)
  end.

(** ** The statistics table *)

(** [self._agent_stats], a [defaultdict] that builds
    [AgentStatistics(agent_id="unknown")] for a key it does not hold yet. *)
Abbreviation stats_table := (gmap hkey AgentStatistics).

(** [AgentLogScorer.__init__] leaves the table empty. *)
Definition fresh_stats : stats_table := ∅.

Definition set_stat_agent_id (a : pyval) (s : AgentStatistics) : AgentStatistics :=
  {| stat_agent_id := a; total_interactions := total_interactions s;
     total_risk_score := total_risk_score s; price_claims := price_claims s;
     legal_claims := legal_claims s; stops_triggered := stops_triggered s;
     placeholders_used := placeholders_used s;
     critical_incidents := critical_incidents s; risk_levels := risk_levels s |}.

Definition set_total_interactions (n : Z) (s : AgentStatistics) : AgentStatistics :=
  {| stat_agent_id := stat_agent_id s; total_interactions := n;
     total_risk_score := total_risk_score s; price_claims := price_claims s;
     legal_claims := legal_claims s; stops_triggered := stops_triggered s;
     placeholders_used := placeholders_used s;
     critical_incidents := critical_incidents s; risk_levels := risk_levels s |}.

Definition set_total_risk_score (n : Z) (s : AgentStatistics) : AgentStatistics :=
  {| stat_agent_id := stat_agent_id s; total_interactions := total_interactions s;
     total_risk_score := n; price_claims := price_claims s;
     legal_claims := legal_claims s; stops_triggered := stops_triggered s;
     placeholders_used := placeholders_used s;
     critical_incidents := critical_incidents s; risk_levels := risk_levels s |}.

Definition set_price_claims (n : Z) (s : AgentStatistics) : AgentStatistics :=
  {| stat_agent_id := stat_agent_id s; total_interactions := total_interactions s;
     total_risk_score := total_risk_score s; price_claims := n;
     legal_claims := legal_claims s; stops_triggered := stops_triggered s;
     placeholders_used := placeholders_used s;
     critical_incidents := critical_incidents s; risk_levels := risk_levels s |}.

Definition set_legal_claims (n : Z) (s : AgentStatistics) : AgentStatistics :=
  {| stat_agent_id := stat_agent_id s; total_interactions := total_interactions s;
     total_risk_score := total_risk_score s; price_claims := price_claims s;
     legal_claims := n; stops_triggered := stops_triggered s;
     placeholders_used := placeholders_used s;
     critical_incidents := critical_incidents s; risk_levels := risk_levels s |}.

Definition set_stops_triggered (n : Z) (s : AgentStatistics) : AgentStatistics :=
  {| stat_agent_id := stat_agent_id s; total_interactions := total_interactions s;
     total_risk_score := total_risk_score s; price_claims := price_claims s;
     legal_claims := legal_claims s; stops_triggered := n;
     placeholders_used := placeholders_used s;
     critical_incidents := critical_incidents s; risk_levels := risk_levels s |}.

Definition set_placeholders_used (n : Z) (s : AgentStatistics) : AgentStatistics :=
  {| stat_agent_id := stat_agent_id s; total_interactions := total_interactions s;
     total_risk_score := total_risk_score s; price_claims := price_claims s;
     legal_claims := legal_claims s; stops_triggered := stops_triggered s;
     placeholders_used := n;
     critical_incidents := critical_incidents s; risk_levels := risk_levels s |}.

Definition set_critical_incidents (n : Z) (s : AgentStatistics) : AgentStatistics :=
  {| stat_agent_id := stat_agent_id s; total_interactions := total_interactions s;
     total_risk_score := total_risk_score s; price_claims := price_claims s;
     legal_claims := legal_claims s; stops_triggered := stops_triggered s;
     placeholders_used := placeholders_used s;
     critical_incidents := n; risk_levels := risk_levels s |}.

Definition set_risk_levels (d : gmap string Z) (s : AgentStatistics) : AgentStatistics :=
  {| stat_agent_id := stat_agent_id s; total_interactions := total_interactions s;
     total_risk_score := total_risk_score s; price_claims := price_claims s;
     legal_claims := legal_claims s; stops_triggered := stops_triggered s;
     placeholders_used := placeholders_used s;
     critical_incidents := critical_incidents s; risk_levels := d |}.

(** The counters of [_update_statistics] that follow the histogram. *)
Definition update_flags (result : ScoreResult) (stats : AgentStatistics)
  : AgentStatistics :=
  let stats :=
    if price_claim result then set_price_claims (price_claims stats + 1) stats
    else stats in
  let stats :=
    if legal_claim result then set_legal_claims (legal_claims stats + 1) stats
    else stats in
  let stats :=
    if stop_triggered result
    then set_stops_triggered (stops_triggered stats + 1) stats else stats in
  let stats :=
    if placeholder_used result
    then set_placeholders_used (placeholders_used stats + 1) stats else stats in
  let stats :=
    if is_critical result
    then set_critical_incidents (critical_incidents stats + 1) stats else stats in
  stats.

(** [AgentLogScorer._update_statistics].  [stats] is the object the table
    holds under the key, so every assignment is a write to the table: a
    lookup that raises leaves the table as it is, and a histogram update
    that raises leaves the writes made before it. *)
Definition _update_statistics (result : ScoreResult) (tbl : stats_table)
  : stats_table * outcome unit :=
  match hash_key (agent_id result) with
  | None => (tbl, Raised TypeError)
  | Some k =>
      let stats := default (AgentStatistics_new (PStr "unknown")) (tbl !! k) in
      let stats := set_stat_agent_id (agent_id result) stats in
      let stats := set_total_interactions (total_interactions stats + 1) stats in
      let stats := set_total_risk_score (total_risk_score stats + risk result) stats in
      let level := RiskLevel.value (risk_level result) in
      match risk_levels stats !! level with
      | None => (<[k := stats]> tbl, Raised (KeyError level))
      | Some n =>
          let stats := set_risk_levels (<[level := n + 1]> (risk_levels stats)) stats in
          let stats := update_flags result stats in
          (<[k := stats]> tbl, Returned ())
      end
  end.

(** [AgentLogScorer.reset_statistics] *)
Definition reset_statistics (tbl : stats_table) : stats_table := ∅.

(** The histogram of an aggregate agrees with its counters: the four
    levels are present, the interactions are their sum and the critical
    incidents are the sum of HIGH and CRITICAL. *)
Definition histogram_consistent (s : AgentStatistics) : Prop :=
  ∃ l m h c : Z,
    risk_levels s !! "LOW" = Some l
    ∧ risk_levels s !! "MEDIUM" = Some m
    ∧ risk_levels s !! "HIGH" = Some h
    ∧ risk_levels s !! "CRITICAL" = Some c
    ∧ total_interactions s = l + m + h + c
    ∧ critical_incidents s = h + c.

(** The counters of an aggregate stay within its interactions: each
    counts some of the observations, the cumulative risk adds risks that
    are not negative, and the aggregate is held under the key of its
    agent. *)
Definition counters_bounded (k : hkey) (s : AgentStatistics) : Prop :=
  hash_key (stat_agent_id s) = Some k
  ∧ 1 ≤ total_interactions s
  ∧ 0 ≤ total_risk_score s
  ∧ 0 ≤ price_claims s ≤ total_interactions s
  ∧ 0 ≤ legal_claims s ≤ total_interactions s
  ∧ 0 ≤ stops_triggered s ≤ total_interactions s
  ∧ 0 ≤ placeholders_used s ≤ total_interactions s
  ∧ 0 ≤ critical_incidents s ≤ total_interactions s.


(** ** Batch summary *)





(** ** Alerts *)

(** An entry of [AlertSystem.alerts]. *)
Record Alert := {
  alert_timestamp : string;
  alert_agent_id : pyval;
  alert_risk_level : string;
  alert_risk_score : Z;
  alert_violations : list string;
  alert_message : string;
}.

(** [AlertSystem.clear] *)
Definition AlertSystem_clear (alerts : list Alert) : list Alert := [].

(** ** Log files *)

(** What [json.load] makes of a file of the directory: an error, which
    is a [JSONDecodeError] and so a [ValueError], or the decoded log. *)
Inductive file_content :=
  | BadJson (msg : string)
  | Json (log : pyval).

(** ** Sample inputs

    Logs of the scenarios, and two stand-ins for the built-ins that the
    scorer takes as given (see [Section Scorer]), for the statements that
    are evaluated on an input. *)

(** Lowering the ASCII letters only: what [str.lower] does to a string
    whose other characters have no case, as "€" and digits. *)
Definition unicode_lower_caseless : string → string := ascii_lower.
Definition container_str_empty : pyval → string := λ _, "".

Definition log_scenario_C : pyval :=
  PDict {[ "agent_id" := PStr "AGENT_001";
           "transcript" :=
             PList [PDict {[ "text" := PStr "Das kostet 100€ und ist gesetzlich geregelt" ]}];
           "stop_triggered" := PBool false ]}.

Definition log_scenario_D : pyval :=
  PDict {[ "agent_id" := PStr "AGENT_001";
           "transcript" := PList [PDict {[ "text" := PStr "Sie fragen nach dem Preis?" ]}];
           "stop_triggered" := PBool true;
           "result" := PStr "STOP_REQUIRED" ]}.

(** The default configuration with a large negative placeholder bonus. *)
Definition harsh_config : ScoringConfig :=
  {| price_keywords := price_keywords default_config;
     legal_keywords := legal_keywords default_config;
     risk_thresholds := risk_thresholds default_config;
     placeholder_bonus := -100;
     yaml_rules := None |}.

(** A result for agent "A1" with the given risk and level and no flag
    set, as the tests of the aggregator build them. *)
Definition observation (risk : Z) (level : RiskLevel) : ScoreResult :=
  {| agent_id := PStr "A1"; contact := PNone; timestamp := PNone;
     price_claim := false; price_keywords_found := [];
     legal_claim := false; legal_keywords_found := [];
     stop_triggered := false; placeholder_used := false;
     risk := risk; risk_level := level; violations := [] |}.

(** ** The scorer *)

Section Scorer.

Set Default Proof Using "Type".

(** Two built-ins are known only in part.  [str.lower] on a string with
    a character outside ASCII follows the Unicode case tables, and
    [str] of a [list] or a [dict] is its [repr]; both are taken as
    given. *)
Variable unicode_lower : string → string.
Variable container_str : pyval → string.

(** [s.lower()] *)
Definition str_lower (s : string) : string :=
  if is_ascii s then ascii_lower s else unicode_lower s.

(** [str(v)] *)
Definition py_str (v : pyval) : string :=
  match v with
  | PStr s => s
  | PNone => "None"
  | PBool true => "True"
  | PBool false => "False"
  | PInt z => pretty z
  | PList _ | PDict _ => container_str v
  end.

(** [log.get(k, dflt)]; a value without [get] raises. *)
Definition log_get (log : pyval) (k : string) (dflt : pyval) : outcome pyval :=
  match log with
  | PDict d => Returned (dict_get d k dflt)
  | _ => Raised AttributeError
  end.

(** One iteration of the loop of [_extract_transcript]: what the line
    appends to [parts], if anything. *)
Definition transcript_part (line : pyval) : option pyval :=
  match line with
  | PDict d => Some (dict_get d "text" (PStr ""))
  | PStr _ => Some line
  | _ => None
  end.

(** The items of [parts] as [str.join] reads them: it raises on the
    first item that is not a [str]. *)
Fixpoint str_items (parts : list pyval) : outcome (list string) :=
  match parts with
  | [] => Returned []
  | PStr s :: ps => ss ← str_items ps; mret (s :: ss)
  | _ :: _ => Raised TypeError
  end.

(** [AgentLogScorer._extract_transcript].  [score_log] calls it on a log
    [validate_log] has accepted, whose transcript is a [list]
    (see [validate_log_shape]).  For any other transcript the model
    answers [TypeError], as Python does for [None], a [bool] or an [int];
    it does not follow Python into the characters of a [str] or the keys
    of a [dict]. *)
Definition _extract_transcript (log : pyval) : outcome string :=
  transcript ← log_get log "transcript" (PList []);
  match transcript with
  | PList lines =>
      let parts := omap transcript_part lines in
      ss ← str_items parts;
      mret (str_join " " ss)
  | _ => Raised TypeError
  end.

(** The lines [str.join] accepts in [_extract_transcript]: a dictionary
    line holds a [str] under "text" or nothing. *)
Definition line_joinable (line : pyval) : bool :=
  match transcript_part line with
  | Some (PStr _) | None => true
  | Some _ => false
  end.

(** [AgentLogScorer._check_keywords] *)
Definition _check_keywords (text : string) (keywords : list string)
  : bool * list string :=
  let text_lower := str_lower text in
  let found := filter (λ kw, str_contains (str_lower kw) text_lower = true) keywords in
  (bool_decide (0 < length found)%nat, found).

(** The body of the loop over [forbidden] in [_check_violations]. *)
Definition forbidden_step (result : ScoreResult) (violations : list string)
  (rule : string) : list string :=
  let violations :=
    if str_contains "price estimates without fact" (str_lower rule)
       && price_claim result && negb (stop_triggered result)
    then violations ++ ["Verstoß: " +:+ rule] else violations in
  let violations :=
    if str_contains "legal promises without fact" (str_lower rule)
       && legal_claim result && negb (stop_triggered result)
    then violations ++ ["Verstoß: " +:+ rule] else violations in
  violations.

(** The body of the loop over [must_include] in [_check_violations]. *)
Definition must_include_step (result : ScoreResult) (violations : list string)
  (rule : string) : list string :=
  let violations :=
    if str_contains "stop_required on price" (str_lower rule)
       && price_claim result && negb (stop_triggered result)
    then violations ++ ["Fehlend: " +:+ rule] else violations in
  let violations :=
    if str_contains "stop_required on legal" (str_lower rule)
       && legal_claim result && negb (stop_triggered result)
    then violations ++ ["Fehlend: " +:+ rule] else violations in
  violations.

(** [AgentLogScorer._check_violations]; [log] and [transcript] are
    parameters the method never reads.  [not rules] holds for [None] and
    for the empty [dict]. *)
Definition _check_violations (config : ScoringConfig) (log : pyval)
  (transcript : string) (result : ScoreResult) : list string :=
  let violations := [] in
  match yaml_rules config with
  | None => violations
  | Some rules =>
      if bool_decide (size rules = 0%nat) then violations
      else
        let forbidden := dict_get rules "forbidden" [] in
        let violations := fold_left (forbidden_step result) forbidden violations in
        let must_include := dict_get rules "must_include" [] in
        let violations := fold_left (must_include_step result) must_include violations in
        violations
  end.

(** The accumulation of [risk_score] in [score_log], before [max]. *)
Definition raw_risk_score (config : ScoringConfig)
  (price_found legal_found stop_triggered placeholder_used : bool) : Z :=
  let risk_score := 0 in
  let risk_score := if price_found then risk_score + 1 else risk_score in
  let risk_score := if legal_found then risk_score + 1 else risk_score in
  let risk_score := if stop_triggered then risk_score - 1 else risk_score in
  let risk_score :=
    if placeholder_used && (price_found || legal_found)
    then risk_score + placeholder_bonus config else risk_score in
  risk_score.

(** [score_log] from the extraction of the transcript to the assignment
    of [result.violations]: the part that does not touch the table. *)
Definition score_log_result (config : ScoringConfig) (log : pyval)
  : outcome ScoreResult :=
  transcript ← _extract_transcript log;
  let '(price_found, price_keywords) :=
    _check_keywords transcript (price_keywords config) in
  let '(legal_found, legal_keywords) :=
    _check_keywords transcript (legal_keywords config) in
  stop_value ← log_get log "stop_triggered" (PBool false);
  let stop_triggered := py_bool stop_value in
  result_value ← log_get log "result" (PStr "");
  let result_text := py_str result_value in
  let placeholder_used :=
    str_contains "PLACEHOLDER" result_text
    || str_contains "STOP_REQUIRED" result_text in
  let risk_score :=
    raw_risk_score config price_found legal_found stop_triggered placeholder_used in
  let risk_score := Z.max 0 risk_score in
  let risk_level := _get_risk_level config risk_score in
  agent_id_value ← log_get log "agent_id" PNone;
  contact_value ← log_get log "contact_name" PNone;
  timestamp_value ← log_get log "timestamp" PNone;
  let result := {|
    agent_id := agent_id_value;
    contact := contact_value;
    timestamp := timestamp_value;
    price_claim := price_found;
    price_keywords_found := price_keywords;
    legal_claim := legal_found;
    legal_keywords_found := legal_keywords;
    stop_triggered := stop_triggered;
    placeholder_used := placeholder_used;
    risk := risk_score;
    risk_level := risk_level;
    violations := [] |} in
  mret (set_violations (_check_violations config log transcript result) result).

(** [AgentLogScorer.score_log] *)
Definition score_log (config : ScoringConfig) (log : pyval) (tbl : stats_table)
  : stats_table * outcome ScoreResult :=
  let '(is_valid, error_msg) := validate_log log in
  if negb is_valid then (tbl, Raised (ValueError error_msg))
  else
    match score_log_result config log with
    | Raised e => (tbl, Raised e)
    | Returned result =>
        match _update_statistics result tbl with
        | (tbl', Raised e) => (tbl', Raised e)
        | (tbl', Returned _) => (tbl', Returned result)
        end
    end.

(** The tables a scorer can hold: the one of a new scorer, and the one
    left by [score_log] (whatever its outcome and configuration) or by
    [reset_statistics] on a table a scorer can hold. *)
Inductive reachable : stats_table → Prop :=
  | reachable_fresh : reachable fresh_stats
  | reachable_score config log tbl tbl' out :
      reachable tbl →
      score_log config log tbl = (tbl', out) →
      reachable tbl'
  | reachable_reset tbl :
      reachable tbl →
      reachable (reset_statistics tbl).

(** The rule evaluation in the words of the specification, to be set
    against [_check_violations]: a rule of a group emits, for each of the
    two phrases of the group that its lowered text contains, one message
    when the matching claim is present without a stop; the messages follow
    the rules of "forbidden", then those of "must_include". *)
Definition rule_emits (label phrase rule : string) (claim stop : bool)
  : list string :=
  if str_contains phrase (str_lower rule) && claim && negb stop
  then [label +:+ rule] else [].

Definition forbidden_emits (result : ScoreResult) (rule : string) : list string :=
  rule_emits "Verstoß: " "price estimates without fact" rule
    (price_claim result) (stop_triggered result)
  ++ rule_emits "Verstoß: " "legal promises without fact" rule
       (legal_claim result) (stop_triggered result).

Definition must_include_emits (result : ScoreResult) (rule : string) : list string :=
  rule_emits "Fehlend: " "stop_required on price" rule
    (price_claim result) (stop_triggered result)
  ++ rule_emits "Fehlend: " "stop_required on legal" rule
       (legal_claim result) (stop_triggered result).

Definition violations_spec (rule_set : option (gmap string (list string)))
  (result : ScoreResult) : list string :=
  match rule_set with
  | None => []
  | Some rules =>
      (dict_get rules "forbidden" [] ≫= forbidden_emits result)
      ++ (dict_get rules "must_include" [] ≫= must_include_emits result)
  end.

(** [AlertSystem.check] with [self.threshold] and [self.alerts]; [now] is
    [datetime.now().isoformat()] at the call. *)
Definition AlertSystem_check (threshold : RiskLevel) (now : string)
  (result : ScoreResult) (alerts : list Alert) : list Alert * bool :=
  if RiskLevel.ge (risk_level result) threshold then
    let alert := {|
      alert_timestamp := now;
      alert_agent_id := agent_id result;
      alert_risk_level := RiskLevel.value (risk_level result);
      alert_risk_score := risk result;
      alert_violations := violations result;
      alert_message :=
        "ALERT: Agent " +:+ py_str (agent_id result) +:+ " hat Risk-Level "
        +:+ RiskLevel.value (risk_level result) |} in
    (alerts ++ [alert], true)
  else (alerts, false).

(** The loop [for r in results: alert_system.check(r)] of [main]; [nows]
    holds the time of each call. *)
Definition check_results (threshold : RiskLevel) (nows : list string)
  (results : list ScoreResult) (alerts : list Alert) : list Alert :=
  foldl (λ alerts nr, fst (AlertSystem_check threshold nr.1 nr.2 alerts))
    alerts (zip nows results).

(** [AgentLogScorer.score_file] on a file that can be opened. *)
Definition score_file (config : ScoringConfig) (file : file_content)
  (tbl : stats_table) : stats_table * outcome ScoreResult :=
  match file with
  | BadJson msg => (tbl, Raised (ValueError msg))
  | Json log_data => score_log config log_data tbl
  end.

(** The loop of [score_directory] over the files the pattern matches, in
    sorted order: a [ValueError] is logged and the file is left out, any
    other exception leaves the loop and the method. *)
Fixpoint score_directory_loop (config : ScoringConfig) (files : list file_content)
  (results : list ScoreResult) (tbl : stats_table)
  : stats_table * outcome (list ScoreResult) :=
  match files with
  | [] => (tbl, Returned results)
  | file_path :: files =>
      match score_file config file_path tbl with
      | (tbl, Returned result) =>
          score_directory_loop config files (results ++ [result]) tbl
      | (tbl, Raised (ValueError _)) =>
          score_directory_loop config files results tbl
      | (tbl, Raised e) => (tbl, Raised e)
      end
  end.

(** [AgentLogScorer.score_directory] *)
Definition score_directory (config : ScoringConfig) (files : list file_content)
  (tbl : stats_table) : stats_table * outcome (list ScoreResult) :=
  score_directory_loop config files [] tbl.

(** ** Proof steps *)

(** Case analysis on every integer comparison of the goal. *)
Ltac case_leb :=
  repeat match goal with
         | |- context [?a <=? ?b] => destruct (Z.leb_spec a b)
         end.

(** Case analysis on every condition of the goal. *)
Ltac case_if :=
  repeat match goal with
         | |- context [if ?b then _ else _] => destruct b
         end.

(** ** Classification: facts *)

Lemma get_order_le (a b : RiskLevel) :
  RiskLevel.le a b = true ↔ (RiskLevel._get_order a ≤ RiskLevel._get_order b)%nat.
Proof. unfold RiskLevel.le. by rewrite bool_decide_eq_true. Qed.

(** X2.  The cascade is monotone whatever the thresholds are, ordered or
    not, and for negative scores too: the first test that succeeds for the
    larger score has succeeded, or an earlier one has, for the smaller. *)
Lemma get_risk_level_mono (config : ScoringConfig) (s1 s2 : Z) :
  s1 ≤ s2 →
  RiskLevel.le (_get_risk_level config s1) (_get_risk_level config s2) = true.
Proof.
  intros Hle. unfold _get_risk_level.
  case_leb; try reflexivity; lia.
Qed.

(** C1.  Monotonic classification: for non-negative scores [s1 < s2] and
    thresholds whose low, medium and high bounds are non-decreasing, the
    level of [s1] is at most the level of [s2] in the order
    LOW < MEDIUM < HIGH < CRITICAL. *)
Theorem get_risk_level_monotonic (config : ScoringConfig) (s1 s2 : Z) :
  0 ≤ s1 →
  s1 < s2 →
  dict_get (risk_thresholds config) "low" 0
    ≤ dict_get (risk_thresholds config) "medium" 1 →
  dict_get (risk_thresholds config) "medium" 1
    ≤ dict_get (risk_thresholds config) "high" 2 →
  RiskLevel.le (_get_risk_level config s1) (_get_risk_level config s2) = true.
Proof.
  intros Hpos Hlt Hlm Hmh. unfold _get_risk_level.
  destruct (Z.leb_spec s2 (dict_get (risk_thresholds config) "low" 0)) as [H2l|H2l].
  - (* s2 is LOW, hence s1 *)
    destruct (Z.leb_spec s1 (dict_get (risk_thresholds config) "low" 0)); [done | lia].
  - destruct (Z.leb_spec s2 (dict_get (risk_thresholds config) "medium" 1)) as [H2m|H2m].
    + (* s2 is MEDIUM: s1 is LOW or MEDIUM *)
      case_leb; try reflexivity; lia.
    + destruct (Z.leb_spec s2 (dict_get (risk_thresholds config) "high" 2)) as [H2h|H2h].
      * (* s2 is HIGH: s1 is not CRITICAL *)
        case_leb; try reflexivity; lia.
      * (* s2 is CRITICAL, the top *)
        case_leb; reflexivity.
Qed.

(** C2.  [_get_risk_level] answers LOW when the score is at most the low
    bound, else MEDIUM when it is at most the medium bound, else HIGH when
    it is at most the high bound, else CRITICAL; a bound is the entry of
    [risk_thresholds] (or the default of [get] when the entry is absent),
    and setting or removing the entry "critical" changes nothing. *)
Theorem get_risk_level_cascade (config : ScoringConfig) (score : Z) :
  let th := risk_thresholds config in
  _get_risk_level config score =
    (if decide (score ≤ default 0 (th !! "low")) then LOW
     else if decide (score ≤ default 1 (th !! "medium")) then MEDIUM
     else if decide (score ≤ default 2 (th !! "high")) then HIGH
     else CRITICAL)
  ∧ (∀ v : Z,
       _get_risk_level (with_thresholds config (<["critical" := v]> th)) score
       = _get_risk_level config score)
  ∧ _get_risk_level (with_thresholds config (delete "critical" th)) score
    = _get_risk_level config score.
Proof.
  intros th. split; [|split].
  - unfold _get_risk_level, dict_get. fold th.
    repeat case_decide; case_leb; try reflexivity; lia.
  - intros v. unfold _get_risk_level, with_thresholds, dict_get; simpl. fold th.
    by rewrite !lookup_insert_ne.
  - unfold _get_risk_level, with_thresholds, dict_get; simpl. fold th.
    by rewrite !lookup_delete_ne.
Qed.

(** ** Validation: facts *)


(** C5.  [validate_log] refuses a log exactly when it is not a dictionary,
    or lacks the key "agent_id", or has a "transcript" that is not a list;
    each refusal carries its own message, checked in this order, and every
    other log is accepted with the empty message whatever its other
    fields.  The bare string "not a dict" is refused as not being a
    dictionary. *)
Theorem validate_log_spec (log : pyval) :
  (fst (validate_log log) = false ↔
     (∀ d, log ≠ PDict d)
     ∨ (∃ d, log = PDict d ∧ d !! "agent_id" = None)
     ∨ (∃ d v, log = PDict d ∧ d !! "transcript" = Some v ∧ ∀ l, v ≠ PList l))
  ∧ ((∀ d, log ≠ PDict d) →
       validate_log log
       = (false, "Log muss ein Dictionary sein, erhalten: " +:+ type_name log))
  ∧ (∀ d, log = PDict d → d !! "agent_id" = None →
       validate_log log = (false, "Pflichtfeld 'agent_id' fehlt"))
  ∧ (∀ d v, log = PDict d → is_Some (d !! "agent_id") →
       d !! "transcript" = Some v → (∀ l, v ≠ PList l) →
       validate_log log = (false, "Feld 'transcript' muss eine Liste sein"))
  ∧ (fst (validate_log log) = true → validate_log log = (true, ""))
  ∧ validate_log (PStr "not a dict")
    = (false, "Log muss ein Dictionary sein, erhalten: str").
Proof.
  split; [|split; [|split; [|split; [|split]]]].
  - split.
    + destruct log as [| | | | |d]; simpl;
        try (intros _; left; intros d' Hd; discriminate Hd).
      unfold dict_contains. case_bool_decide as Hid; simpl.
      * destruct (d !! "transcript") as [v|] eqn:Ht; [|discriminate].
        intros Hf. right; right. exists d, v. split; [done|]. split; [done|].
        intros l ->. discriminate Hf.
      * intros _. right; left. exists d. split; [done|].
        by apply eq_None_not_Some.
    + intros [Hnd | [(d & -> & Hid) | (d & v & -> & Ht & Hnl)]].
      * destruct log; try reflexivity. by destruct (Hnd d).
      * simpl. unfold dict_contains. rewrite Hid.
        rewrite bool_decide_eq_false_2; [reflexivity|]. by intros [? ?].
      * simpl. unfold dict_contains. case_bool_decide; simpl; [|reflexivity].
        rewrite Ht. destruct v; try reflexivity. by destruct (Hnl l).
  - intros Hnd. destruct log; try reflexivity. by destruct (Hnd d).
  - intros d -> Hid. simpl. unfold dict_contains. rewrite Hid.
    rewrite bool_decide_eq_false_2; [reflexivity|]. by intros [? ?].
  - intros d v -> Hid Ht Hnl. simpl. unfold dict_contains.
    rewrite bool_decide_eq_true_2 by done. simpl. rewrite Ht.
    destruct v; try reflexivity. by destruct (Hnl l).
  - destruct log as [| | | | |d]; simpl; try discriminate.
    unfold dict_contains. case_bool_decide; simpl; [|discriminate].
    by destruct (d !! "transcript") as [[]|].
  - reflexivity.
Qed.

(** ** Atomicity of a refused call *)

(** C10.  When [validate_log] refuses the log, [score_log] raises
    [ValueError] with the message of the validation and the statistics
    table is the one it was called with. *)
Theorem score_log_invalid_unchanged
  (config : ScoringConfig) (log : pyval) (tbl : stats_table) :
  fst (validate_log log) = false →
  score_log config log tbl = (tbl, Raised (ValueError (snd (validate_log log)))).
Proof.
  intros Hinv. unfold score_log.
  destruct (validate_log log) as [is_valid error_msg]. simpl in *.
  by rewrite Hinv.
Qed.

(** ** Keyword matching: facts *)

Lemma append_cons (c : Ascii.ascii) (s t : string) :
  String c s +:+ t = String c (s +:+ t).
Proof. reflexivity. Qed.

Lemma prefix_spec (n h : string) :
  String.prefix n h = true ↔ ∃ post, h = n +:+ post.
Proof.
  revert h. induction n as [|c n IH]; intros [|c' h]; simpl.
  - split; [intros _; by exists "" | done].
  - split; [intros _; by exists (String c' h) | done].
  - split; [done | intros [post Hp]; discriminate Hp].
  - destruct (Ascii.ascii_dec c c') as [->|Hne].
    + rewrite IH. split; intros [post Hp]; exists post;
        rewrite append_cons in *; congruence.
    + split; [done | intros [post Hp]; rewrite append_cons in Hp; congruence].
Qed.

(** [str_contains] is the substring test: the needle lies somewhere in
    the haystack. *)
Lemma str_contains_spec (n h : string) :
  str_contains n h = true ↔ ∃ pre post, h = pre +:+ n +:+ post.
Proof.
  induction h as [|c h IH].
  - change (str_contains n "") with (String.prefix n "" || false).
    rewrite orb_false_r, prefix_spec. split.
    + intros [post Hp]. by exists "", post.
    + intros (pre & post & Hp). destruct pre as [|c' pre].
      * by exists post.
      * rewrite append_cons in Hp. discriminate Hp.
  - change (str_contains n (String c h))
      with (String.prefix n (String c h) || str_contains n h).
    rewrite orb_true_iff, prefix_spec, IH. split.
    + intros [[post Hp] | (pre & post & Hp)].
      * by exists "", post.
      * exists (String c pre), post. rewrite append_cons. by rewrite Hp.
    + intros (pre & post & Hp). destruct pre as [|c' pre].
      * left. by exists post.
      * right. exists pre, post. rewrite append_cons in Hp. congruence.
Qed.

Lemma check_keywords_found (text : string) (keywords : list string) (kw : string) :
  kw ∈ snd (_check_keywords text keywords) ↔
  kw ∈ keywords ∧ str_contains (str_lower kw) (str_lower text) = true.
Proof. unfold _check_keywords. simpl. rewrite list_elem_of_filter. tauto. Qed.

Lemma check_keywords_any (text : string) (keywords : list string) :
  fst (_check_keywords text keywords) = true ↔
  ∃ kw, kw ∈ keywords ∧ str_contains (str_lower kw) (str_lower text) = true.
Proof.
  rewrite <- (exist_proper _ _ (check_keywords_found text keywords)).
  unfold _check_keywords. simpl. rewrite bool_decide_eq_true.
  destruct (filter _ keywords) as [|kw found]; simpl.
  - split; [lia | intros [kw Hkw]; by apply elem_of_nil in Hkw].
  - split; [intros _; exists kw; apply list_elem_of_here | lia].
Qed.

(** C6, as amended.  [_check_keywords] lowers the text and each keyword
    and searches for the keyword as a substring.  Its boolean is true
    exactly when some keyword of the list occurs; its list holds exactly
    the keywords that occur, in the order of the keyword list and each as
    often as the keyword list has it, so it is free of duplicates when the
    keyword list is; and two calls on the same text and keyword list give
    the same boolean and the same list. *)
Theorem check_keywords_spec (text : string) (keywords : list string) :
  let occurs kw := ∃ pre post, str_lower text = pre +:+ str_lower kw +:+ post in
  let r := _check_keywords text keywords in
  (fst r = true ↔ ∃ kw, kw ∈ keywords ∧ occurs kw)
  ∧ (∀ kw, kw ∈ snd r ↔ kw ∈ keywords ∧ occurs kw)
  ∧ snd r `sublist_of` keywords
  ∧ (∀ kw, occurs kw → filter (λ x, x = kw) (snd r) = filter (λ x, x = kw) keywords)
  ∧ (NoDup keywords → NoDup (snd r))
  ∧ fst (_check_keywords text keywords) = fst r
  ∧ snd (_check_keywords text keywords) = snd r.
Proof.
  intros occurs r. subst r.
  assert (Hocc : ∀ kw, str_contains (str_lower kw) (str_lower text) = true ↔ occurs kw)
    by (intros kw; apply str_contains_spec).
  split; [|split; [|split; [|split; [|split; [|split]]]]].
  - rewrite check_keywords_any. by setoid_rewrite Hocc.
  - intros kw. by rewrite check_keywords_found, Hocc.
  - apply sublist_filter.
  - intros kw Hkw. unfold _check_keywords. simpl.
    rewrite list_filter_filter. apply list_filter_iff.
    intros x. split; [tauto|]. intros ->. split; [done|]. by apply Hocc.
  - apply NoDup_filter.
  - reflexivity.
  - reflexivity.
Qed.

(** ** Rule violations: facts *)

Lemma forbidden_step_emits (result : ScoreResult) (acc : list string) (rule : string) :
  forbidden_step result acc rule = acc ++ forbidden_emits result rule.
Proof.
  unfold forbidden_step, forbidden_emits, rule_emits.
  case_if; by rewrite <- ?(assoc_L (++)), ?app_nil_r.
Qed.

Lemma must_include_step_emits (result : ScoreResult) (acc : list string) (rule : string) :
  must_include_step result acc rule = acc ++ must_include_emits result rule.
Proof.
  unfold must_include_step, must_include_emits, rule_emits.
  case_if; by rewrite <- ?(assoc_L (++)), ?app_nil_r.
Qed.

(** A loop that appends what each rule emits builds the concatenation of
    the emissions behind what it started with. *)
Lemma fold_left_emits (step : list string → string → list string)
  (emits : string → list string) (rules acc : list string) :
  (∀ acc rule, step acc rule = acc ++ emits rule) →
  fold_left step rules acc = acc ++ (rules ≫= emits).
Proof.
  intros Hstep. revert acc. induction rules as [|rule rules IH]; intros acc; simpl.
  - by rewrite app_nil_r.
  - by rewrite IH, Hstep, <- (assoc_L (++)).
Qed.

Lemma check_violations_refines (config : ScoringConfig) (log : pyval)
  (transcript : string) (result : ScoreResult) :
  _check_violations config log transcript result
  = violations_spec (yaml_rules config) result.
Proof.
  unfold _check_violations, violations_spec.
  destruct (yaml_rules config) as [rules|]; [|reflexivity].
  case_bool_decide as Hsize.
  - apply map_size_empty_inv in Hsize. subst rules.
    unfold dict_get. by rewrite !lookup_empty.
  - rewrite (fold_left_emits _ _ _ _ (must_include_step_emits result)).
    by rewrite (fold_left_emits _ _ _ _ (forbidden_step_emits result)).
Qed.

Lemma elem_of_rule_emits (v label phrase rule : string) (claim stop : bool) :
  v ∈ rule_emits label phrase rule claim stop ↔
  v = label +:+ rule
  ∧ str_contains phrase (str_lower rule) = true ∧ claim = true ∧ stop = false.
Proof.
  unfold rule_emits.
  destruct (str_contains phrase (str_lower rule)), claim, stop; simpl;
    rewrite ?list_elem_of_singleton, ?elem_of_nil; intuition congruence.
Qed.

(** C8.  Without a rule set [_check_violations] returns the empty list.
    With one, its result is what the specification describes: the rules
    of "forbidden" in order, each emitting a message for "price estimates
    without fact" exactly when it contains that phrase (lowered) and a
    price claim comes without a stop, and one for "legal promises without
    fact" likewise for a legal claim; then the rules of "must_include" with
    "stop_required on price" and "stop_required on legal".  Nothing else
    is ever in the result. *)
Theorem check_violations_spec (config : ScoringConfig) (log : pyval)
  (transcript : string) (result : ScoreResult) :
  (yaml_rules config = None → _check_violations config log transcript result = [])
  ∧ _check_violations config log transcript result
    = violations_spec (yaml_rules config) result
  ∧ ∀ v, v ∈ _check_violations config log transcript result ↔
      ∃ rules rule,
        yaml_rules config = Some rules
        ∧ stop_triggered result = false
        ∧ ((rule ∈ dict_get rules "forbidden" []
            ∧ v = "Verstoß: " +:+ rule
            ∧ ((str_contains "price estimates without fact" (str_lower rule) = true
                ∧ price_claim result = true)
               ∨ (str_contains "legal promises without fact" (str_lower rule) = true
                  ∧ legal_claim result = true)))
           ∨ (rule ∈ dict_get rules "must_include" []
              ∧ v = "Fehlend: " +:+ rule
              ∧ ((str_contains "stop_required on price" (str_lower rule) = true
                  ∧ price_claim result = true)
                 ∨ (str_contains "stop_required on legal" (str_lower rule) = true
                    ∧ legal_claim result = true)))).
Proof.
  split; [|split].
  - intros Hnone. unfold _check_violations. by rewrite Hnone.
  - apply check_violations_refines.
  - clear container_str.
    intros v. rewrite check_violations_refines. unfold violations_spec.
    destruct (yaml_rules config) as [rules|].
    + rewrite elem_of_app, !list_elem_of_bind.
      unfold forbidden_emits, must_include_emits.
      setoid_rewrite elem_of_app. setoid_rewrite elem_of_rule_emits.
      split.
      * intros [(rule & Hv & Hin) | (rule & Hv & Hin)];
          exists rules, rule; intuition idtac.
      * intros (rules' & rule & [= <-] & Hstop & H).
        destruct H as [(Hin & -> & H) | (Hin & -> & H)]; [left | right];
          exists rule; intuition idtac.
    + rewrite elem_of_nil. split; [done|]. by intros (? & ? & ? & _).
Qed.

(** ** Statistics: facts *)

Lemma update_flags_totals (result : ScoreResult) (stats : AgentStatistics) :
  total_interactions (update_flags result stats) = total_interactions stats
  ∧ total_risk_score (update_flags result stats) = total_risk_score stats
  ∧ risk_levels (update_flags result stats) = risk_levels stats.
Proof.
  unfold update_flags.
  destruct (price_claim result), (legal_claim result), (stop_triggered result),
    (placeholder_used result), (is_critical result); done.
Qed.

(** One observation adds 1 to the interactions and the risk of the result
    to the cumulative risk of its agent, whether or not the histogram
    update that follows raises. *)
Lemma update_statistics_totals (result : ScoreResult) (tbl : stats_table) (k : hkey) :
  hash_key (agent_id result) = Some k →
  ∃ stats,
    fst (_update_statistics result tbl) !! k = Some stats
    ∧ total_interactions stats
      = total_interactions (default (AgentStatistics_new (PStr "unknown")) (tbl !! k)) + 1
    ∧ total_risk_score stats
      = total_risk_score (default (AgentStatistics_new (PStr "unknown")) (tbl !! k))
        + risk result.
Proof.
  intros Hk. unfold _update_statistics. rewrite Hk. simpl.
  destruct (risk_levels _ !! _) as [n|]; simpl;
    rewrite lookup_insert_eq; eexists; (split; [reflexivity|]).
  - rewrite (proj1 (update_flags_totals _ _)).
    by rewrite (proj1 (proj2 (update_flags_totals _ _))).
  - done.
Qed.

(** C7.  [average_risk] is the cumulative risk divided by the number of
    interactions when that number is positive and 0 when it is 0;
    [stop_rate] is the stops divided by the price and legal claims when
    there is a claim and 1 when there is none; and four observations with
    risks 0, 1, 2 and 3 for one agent, aggregated from an empty table,
    leave that agent an average risk of 1.5.  The quotients are the exact
    ones, which Python rounds to a float. *)
Theorem statistics_rates :
  (∀ s : AgentStatistics,
     (0 < total_interactions s →
        average_risk s
        = (inject_Z (total_risk_score s) / inject_Z (total_interactions s))%Q)
     ∧ (total_interactions s = 0 → average_risk s = 0%Q)
     ∧ (0 < price_claims s + legal_claims s →
          stop_rate s
          = (inject_Z (stops_triggered s)
             / inject_Z (price_claims s + legal_claims s))%Q)
     ∧ (price_claims s + legal_claims s = 0 → stop_rate s = 1%Q))
  ∧ (∀ (r0 r1 r2 r3 : ScoreResult) (k : hkey),
       Forall (λ r, hash_key (agent_id r) = Some k) [r0; r1; r2; r3] →
       risk <$> [r0; r1; r2; r3] = [0; 1; 2; 3] →
       ∃ s,
         foldl (λ tbl r, fst (_update_statistics r tbl)) fresh_stats [r0; r1; r2; r3]
           !! k = Some s
         ∧ (average_risk s == 3 # 2)%Q).
Proof.
  split.
  - intros s. unfold average_risk, stop_rate, true_div.
    repeat split; intros H.
    + destruct (Z.eqb_spec (total_interactions s) 0); [lia | done].
    + by rewrite H.
    + destruct (Z.eqb_spec (price_claims s + legal_claims s) 0); [lia | done].
    + by rewrite H.
  - intros r0 r1 r2 r3 k Hk Hrisk.
    apply Forall_cons in Hk as [Hk0 Hk]. apply Forall_cons in Hk as [Hk1 Hk].
    apply Forall_cons in Hk as [Hk2 Hk]. apply Forall_cons in Hk as [Hk3 _].
    injection Hrisk as Hr0 Hr1 Hr2 Hr3. simpl.
    destruct (update_statistics_totals r0 fresh_stats k Hk0) as (s0 & Hs0 & Hn0 & Ht0).
    remember (fst (_update_statistics r0 fresh_stats)) as t0.
    destruct (update_statistics_totals r1 t0 k Hk1) as (s1 & Hs1 & Hn1 & Ht1).
    remember (fst (_update_statistics r1 t0)) as t1.
    destruct (update_statistics_totals r2 t1 k Hk2) as (s2 & Hs2 & Hn2 & Ht2).
    remember (fst (_update_statistics r2 t1)) as t2.
    destruct (update_statistics_totals r3 t2 k Hk3) as (s3 & Hs3 & Hn3 & Ht3).
    exists s3. split; [exact Hs3|].
    rewrite Hs2 in Hn3, Ht3. rewrite Hs1 in Hn2, Ht2. rewrite Hs0 in Hn1, Ht1.
    unfold fresh_stats in Hn0, Ht0. rewrite lookup_empty in Hn0, Ht0.
    simpl in *.
    assert (Hn : total_interactions s3 = 4) by lia.
    assert (Ht : total_risk_score s3 = 6) by lia.
    unfold average_risk, true_div. rewrite Hn, Ht. reflexivity.
Qed.

(** ** The histogram invariant *)

Lemma is_critical_level (result : ScoreResult) :
  is_critical result
  = match risk_level result with
    | HIGH | CRITICAL => true
    | LOW | MEDIUM => false
    end.
Proof. unfold is_critical. by destruct (risk_level result). Qed.

Lemma update_flags_histogram (result : ScoreResult) (stats : AgentStatistics) :
  critical_incidents (update_flags result stats)
  = critical_incidents stats + (if is_critical result then 1 else 0).
Proof.
  unfold update_flags.
  destruct (price_claim result), (legal_claim result), (stop_triggered result),
    (placeholder_used result), (is_critical result); simpl; lia.
Qed.

Lemma new_statistics_consistent (a : pyval) :
  histogram_consistent (AgentStatistics_new a).
Proof. exists 0, 0, 0, 0. by repeat split. Qed.

(** On a table of consistent aggregates an observation with a hashable
    agent never fails, and it leaves a table of consistent aggregates. *)
Lemma update_statistics_consistent (result : ScoreResult) (tbl : stats_table) :
  (∀ k s, tbl !! k = Some s → histogram_consistent s) →
  (∀ k s, fst (_update_statistics result tbl) !! k = Some s → histogram_consistent s)
  ∧ (is_Some (hash_key (agent_id result)) →
       snd (_update_statistics result tbl) = Returned ()).
Proof.
  intros Htbl. unfold _update_statistics.
  destruct (hash_key (agent_id result)) as [k|]; simpl;
    [|split; [exact Htbl | by intros [? ?]]].
  assert (Hold : histogram_consistent
                   (default (AgentStatistics_new (PStr "unknown")) (tbl !! k))).
  { destruct (tbl !! k) as [s|] eqn:Hs; simpl.
    - by apply (Htbl k).
    - apply new_statistics_consistent. }
  destruct Hold as (l & m & h & c & Hl & Hm & Hh & Hc & Hsum & Hcrit).
  set (old := default (AgentStatistics_new (PStr "unknown")) (tbl !! k)) in *.
  assert (Hnew : ∃ n, risk_levels old !! RiskLevel.value (risk_level result) = Some n
    ∧ histogram_consistent
        (update_flags result
           (set_risk_levels
              (<[RiskLevel.value (risk_level result) := n + 1]> (risk_levels old))
              (set_total_risk_score (total_risk_score old + risk result)
                 (set_total_interactions (total_interactions old + 1)
                    (set_stat_agent_id (agent_id result) old)))))).
  { pose proof (is_critical_level result) as Hic.
    destruct (risk_level result); simpl;
      [exists l | exists m | exists h | exists c]; (split; [done|]);
      [exists (l + 1), m, h, c | exists l, (m + 1), h, c
      | exists l, m, (h + 1), c | exists l, m, h, (c + 1)];
      rewrite update_flags_histogram, Hic,
        (proj1 (update_flags_totals _ _)),
        (proj2 (proj2 (update_flags_totals _ _))); simpl;
      rewrite ?lookup_insert_eq, ?lookup_insert_ne by done;
      repeat split; try done; lia. }
  destruct Hnew as (n & -> & Hcons). simpl. split; [|done].
  intros k' s. destruct (decide (k = k')) as [<-|Hne].
  - rewrite lookup_insert_eq. by intros [= <-].
  - rewrite lookup_insert_ne by done. apply Htbl.
Qed.

(** ** Scoring: facts *)

(** The transcript is extracted exactly when each of its lines is one
    [str.join] accepts. *)
Lemma str_items_returns (lines : list pyval) :
  (∃ ss, str_items (omap transcript_part lines) = Returned ss) ↔
  forallb line_joinable lines = true.
Proof.
  induction lines as [|line lines IH]; simpl.
  - split; [done | by exists []].
  - unfold line_joinable at 1.
    destruct (transcript_part line) as [[| | |s| |]|]; simpl;
      try (split; [by intros [ss Hss] | done]);
      change (list_omap pyval pyval transcript_part lines)
        with (omap transcript_part lines).
    + rewrite <- IH. split.
      * intros [ss Hss]. destruct (str_items _) as [e|ss']; [done | by exists ss'].
      * intros [ss' ->]. by exists (s :: ss').
    + exact IH.
Qed.

Lemma extract_transcript_returns (d : gmap string pyval) (lines : list pyval) :
  dict_get d "transcript" (PList []) = PList lines →
  (∃ transcript, _extract_transcript (PDict d) = Returned transcript) ↔
  forallb line_joinable lines = true.
Proof.
  intros Hlines. rewrite <- str_items_returns.
  unfold _extract_transcript. simpl. rewrite Hlines.
  destruct (str_items _) as [e|ss]; simpl.
  - split; by intros [? ?].
  - split; intros _; eauto.
Qed.

(** What [score_log] puts in the fields of the result it builds. *)
Lemma score_log_result_fields (config : ScoringConfig) (log : pyval)
  (result : ScoreResult) :
  score_log_result config log = Returned result →
  ∃ d transcript,
    log = PDict d
    ∧ _extract_transcript log = Returned transcript
    ∧ agent_id result = dict_get d "agent_id" PNone
    ∧ price_claim result = fst (_check_keywords transcript (price_keywords config))
    ∧ legal_claim result = fst (_check_keywords transcript (legal_keywords config))
    ∧ stop_triggered result = py_bool (dict_get d "stop_triggered" (PBool false))
    ∧ placeholder_used result
      = (str_contains "PLACEHOLDER" (py_str (dict_get d "result" (PStr "")))
         || str_contains "STOP_REQUIRED" (py_str (dict_get d "result" (PStr ""))))
    ∧ risk result
      = Z.max 0 (raw_risk_score config (price_claim result) (legal_claim result)
                   (stop_triggered result) (placeholder_used result))
    ∧ risk_level result = _get_risk_level config (risk result).
Proof.
  unfold score_log_result.
  destruct (_extract_transcript log) as [e|transcript] eqn:Htr; [discriminate|].
  destruct log as [| | | | |d]; try discriminate Htr.
  simpl. intros [= <-]. exists d, transcript. by repeat split.
Qed.

(** The result is built whenever the transcript can be extracted. *)
Lemma score_log_result_returns (config : ScoringConfig) (log : pyval)
  (transcript : string) :
  _extract_transcript log = Returned transcript →
  ∃ result, score_log_result config log = Returned result.
Proof.
  intros Htr. unfold score_log_result. rewrite Htr.
  destruct log as [| | | | |d]; try discriminate Htr.
  simpl. eauto.
Qed.

(** [score_log] raises for a refused log, for a transcript entry whose
    text is not a string and for an agent that cannot be a key; it returns
    its result in every other case, on a table of consistent aggregates. *)
Lemma score_log_returns (config : ScoringConfig) (log : pyval) (tbl : stats_table)
  (transcript : string) :
  (∀ k s, tbl !! k = Some s → histogram_consistent s) →
  fst (validate_log log) = true →
  _extract_transcript log = Returned transcript →
  (∀ d, log = PDict d → is_Some (hash_key (dict_get d "agent_id" PNone))) →
  ∃ result,
    score_log_result config log = Returned result
    ∧ score_log config log tbl = (fst (_update_statistics result tbl), Returned result).
Proof.
  intros Htbl Hvalid Htr Hkey.
  destruct (score_log_result_returns config log transcript Htr) as [result Hres].
  exists result. split; [exact Hres|].
  unfold score_log. destruct (validate_log log) as [is_valid error_msg].
  simpl in Hvalid. subst is_valid. simpl. rewrite Hres.
  destruct (score_log_result_fields config log result Hres)
    as (d & _ & -> & _ & Hid & _).
  destruct (update_statistics_consistent result tbl Htbl) as [_ Hret].
  rewrite Hid in Hret. specialize (Hret (Hkey d eq_refl)).
  destruct (_update_statistics result tbl) as [tbl' out]. simpl in *. by subst out.
Qed.

(** The table [score_log] leaves, whatever the outcome. *)
Lemma score_log_consistent (config : ScoringConfig) (log : pyval)
  (tbl tbl' : stats_table) (out : outcome ScoreResult) :
  (∀ k s, tbl !! k = Some s → histogram_consistent s) →
  score_log config log tbl = (tbl', out) →
  ∀ k s, tbl' !! k = Some s → histogram_consistent s.
Proof.
  intros Htbl. unfold score_log.
  destruct (validate_log log) as [[] error_msg]; simpl; [|by intros [= <- _]].
  destruct (score_log_result config log) as [e|result]; [by intros [= <- _]|].
  destruct (update_statistics_consistent result tbl Htbl) as [Hcons _].
  destruct (_update_statistics result tbl) as [tbl1 [e|[]]]; simpl in *;
    by intros [= <- _].
Qed.

Lemma reachable_consistent (tbl : stats_table) :
  reachable tbl → ∀ k s, tbl !! k = Some s → histogram_consistent s.
Proof.
  induction 1 as [|config log tbl tbl' out _ IH Hscore|tbl _ _].
  - intros k s. unfold fresh_stats. by rewrite lookup_empty.
  - by apply (score_log_consistent config log tbl tbl' out).
  - intros k s. unfold reset_statistics. by rewrite lookup_empty.
Qed.

(** C3.  Clamp invariant: the risk of the result [score_log] returns for
    a log that passes validation is never negative, whatever the
    configuration and however negative its placeholder bonus. *)
Theorem score_log_risk_nonneg (config : ScoringConfig) (log : pyval)
  (tbl tbl' : stats_table) (result : ScoreResult) :
  fst (validate_log log) = true →
  score_log config log tbl = (tbl', Returned result) →
  0 ≤ risk result.
Proof.
  intros _. unfold score_log.
  destruct (validate_log log) as [[] error_msg]; simpl; [|discriminate].
  destruct (score_log_result config log) as [e|result0] eqn:Hres; [discriminate|].
  destruct (_update_statistics result0 tbl) as [tbl1 [e|[]]]; [discriminate|].
  intros [= _ <-].
  destruct (score_log_result_fields config log result0 Hres)
    as (_ & _ & _ & _ & _ & _ & _ & _ & _ & -> & _).
  apply Z.le_max_l.
Qed.

(** C9.  On every table a scorer can hold, reached from a new scorer by
    calls of [score_log] and [reset_statistics], each aggregate has its
    interactions equal to the sum of the four histogram counters and its
    critical incidents equal to the sum of the HIGH and CRITICAL ones. *)
Theorem statistics_histogram_invariant (tbl : stats_table) (k : hkey)
  (s : AgentStatistics) :
  reachable tbl →
  tbl !! k = Some s →
  ∃ l m h c : Z,
    risk_levels s !! "LOW" = Some l
    ∧ risk_levels s !! "MEDIUM" = Some m
    ∧ risk_levels s !! "HIGH" = Some h
    ∧ risk_levels s !! "CRITICAL" = Some c
    ∧ total_interactions s = l + m + h + c
    ∧ critical_incidents s = h + c.
Proof.
  intros Hreach. revert k s.
  induction Hreach as [|config log tbl tbl' out _ IH Hscore|tbl _ _]; intros k s.
  - (* a new scorer holds no aggregate *)
    unfold fresh_stats. by rewrite lookup_empty.
  - (* [score_log]: a refused or failed call leaves the table, a scored
       one adds the result to the aggregate of its agent *)
    exact (score_log_consistent config log tbl tbl' out IH Hscore k s).
  - (* [reset_statistics] empties the table *)
    unfold reset_statistics. by rewrite lookup_empty.
Qed.

(** C4.  Scenario D: with the default configuration, the log of agent
    AGENT_001 whose transcript is "Sie fragen nach dem Preis?", with a stop
    and the result STOP_REQUIRED, is scored with a price claim, the stop,
    a raw accumulation of +1 -1 -1 clamped to the risk 0, and the level
    LOW. *)
Theorem score_log_scenario_D (tbl : stats_table) :
  reachable tbl →
  ∃ tbl' result,
    score_log default_config log_scenario_D tbl = (tbl', Returned result)
    ∧ price_claim result = true
    ∧ stop_triggered result = true
    ∧ raw_risk_score default_config (price_claim result) (legal_claim result)
        (stop_triggered result) (placeholder_used result) = 1 - 1 - 1
    ∧ risk result = 0
    ∧ risk_level result = LOW.
Proof.
  intros Hreach.
  assert (Htr : _extract_transcript log_scenario_D
                = Returned "Sie fragen nach dem Preis?") by (vm_compute; reflexivity).
  destruct (score_log_returns default_config log_scenario_D tbl _
              (reachable_consistent tbl Hreach) eq_refl Htr)
    as (result & Hres & Hscore).
  { intros d [= <-]. vm_compute. eauto. }
  exists (fst (_update_statistics result tbl)), result. split; [exact Hscore|].
  destruct (score_log_result_fields default_config log_scenario_D result Hres)
    as (d & transcript & [= <-] & Htr' & _ & Hprice & Hlegal & Hstop & Hph
        & Hrisk & Hlevel).
  rewrite Htr in Htr'. injection Htr' as <-.
  assert (Hp : price_claim result = true).
  { rewrite Hprice. apply check_keywords_any. exists "preis". split.
    - apply list_elem_of_In. vm_compute. tauto.
    - vm_compute. reflexivity. }
  assert (Hl : legal_claim result = false)
    by (rewrite Hlegal; vm_compute; reflexivity).
  assert (Hs : stop_triggered result = true)
    by (rewrite Hstop; vm_compute; reflexivity).
  assert (Hu : placeholder_used result = true)
    by (rewrite Hph; vm_compute; reflexivity).
  rewrite Hlevel, Hrisk, Hp, Hl, Hs, Hu.
  repeat split; vm_compute; reflexivity.
Qed.

(** ** More on the levels *)

(** X1.  The comparisons of [RiskLevel] form a total order with LOW at the
    bottom and CRITICAL at the top: [<=] is reflexive, transitive,
    antisymmetric and total, [<] is its strict part, and [>], [>=] are
    [<], [<=] with the arguments exchanged. *)
Theorem risk_level_total_order :
  (∀ a, RiskLevel.le a a = true)
  ∧ (∀ a b c,
       RiskLevel.le a b = true → RiskLevel.le b c = true → RiskLevel.le a c = true)
  ∧ (∀ a b, RiskLevel.le a b = true → RiskLevel.le b a = true → a = b)
  ∧ (∀ a b, RiskLevel.le a b = true ∨ RiskLevel.le b a = true)
  ∧ (∀ a b, RiskLevel.lt a b = true ↔ RiskLevel.le a b = true ∧ a ≠ b)
  ∧ (∀ a b, RiskLevel.gt a b = RiskLevel.lt b a ∧ RiskLevel.ge a b = RiskLevel.le b a)
  ∧ (∀ a, RiskLevel.le LOW a = true ∧ RiskLevel.le a CRITICAL = true).
Proof.
  split; [by intros []|].
  split; [intros [] [] []; vm_compute; congruence|].
  split; [intros [] []; vm_compute; congruence|].
  split; [intros [] []; vm_compute; tauto|].
  split; [intros [] []; vm_compute; intuition congruence|].
  split; [by intros [] []|].
  by intros [].
Qed.

(** X3.  Every level is the answer for some score exactly when the low,
    medium and high bounds are strictly increasing: with two equal or
    exchanged bounds a level is never returned. *)
Theorem get_risk_level_onto (config : ScoringConfig) :
  (∀ level, ∃ score, _get_risk_level config score = level) ↔
  dict_get (risk_thresholds config) "low" 0
    < dict_get (risk_thresholds config) "medium" 1
  ∧ dict_get (risk_thresholds config) "medium" 1
    < dict_get (risk_thresholds config) "high" 2.
Proof.
  unfold _get_risk_level.
  set (lo := dict_get (risk_thresholds config) "low" 0).
  set (me := dict_get (risk_thresholds config) "medium" 1).
  set (hi := dict_get (risk_thresholds config) "high" 2).
  split.
  - intros Honto.
    destruct (Honto MEDIUM) as [sm Hm]. destruct (Honto HIGH) as [sh Hh].
    revert Hm Hh. case_leb; intros; try discriminate; lia.
  - intros [Hlm Hmh] level.
    destruct level; [exists lo | exists me | exists hi | exists (hi + 1)];
      case_leb; try reflexivity; lia.
Qed.

(** ** More on keyword matching *)

Lemma ascii_lower_char_facts (c : Ascii.ascii) :
  is_ascii_char (ascii_lower_char c) = is_ascii_char c
  ∧ ascii_lower_char (ascii_lower_char c) = ascii_lower_char c.
Proof. by destruct c as [[] [] [] [] [] [] [] []]. Qed.

Lemma is_ascii_lower (s : string) : is_ascii (ascii_lower s) = is_ascii s.
Proof.
  induction s as [|c s IH]; [done|]. simpl.
  by rewrite IH, (proj1 (ascii_lower_char_facts c)).
Qed.

Lemma ascii_lower_idemp (s : string) : ascii_lower (ascii_lower s) = ascii_lower s.
Proof.
  induction s as [|c s IH]; [done|]. simpl.
  by rewrite IH, (proj2 (ascii_lower_char_facts c)).
Qed.

Lemma is_ascii_app (s t : string) : is_ascii (s +:+ t) = is_ascii s && is_ascii t.
Proof.
  induction s as [|c s IH]; [done|]. rewrite append_cons. simpl.
  by rewrite IH, andb_assoc.
Qed.

Lemma append_assoc (s t u : string) : (s +:+ t) +:+ u = s +:+ (t +:+ u).
Proof.
  induction s as [|c s IH]; [done|]. by rewrite !append_cons, IH.
Qed.

Lemma ascii_lower_app (s t : string) :
  ascii_lower (s +:+ t) = ascii_lower s +:+ ascii_lower t.
Proof.
  induction s as [|c s IH]; [done|]. rewrite append_cons. simpl.
  by rewrite IH, append_cons.
Qed.

(** On ASCII strings the substring test on the lowered strings goes from
    a part of a text to the text. *)
Lemma str_lower_contains_part (kw pre s post : string) :
  is_ascii (pre +:+ s +:+ post) = true →
  is_ascii kw = true →
  str_contains (ascii_lower kw) (ascii_lower s) = true →
  str_contains (str_lower kw) (str_lower (pre +:+ s +:+ post)) = true.
Proof.
  intros Htext Hkw Hin. unfold str_lower. rewrite Htext, Hkw.
  rewrite !ascii_lower_app. apply str_contains_spec.
  apply str_contains_spec in Hin as (pre' & post' & ->).
  exists (ascii_lower pre +:+ pre'), (post' +:+ ascii_lower post).
  by rewrite !append_assoc.
Qed.

(** X4.  An empty keyword matches every text: a keyword list that holds
    the empty string reports a claim for every transcript. *)
Theorem check_keywords_empty_keyword (text : string) (keywords : list string) :
  "" ∈ keywords →
  fst (_check_keywords text keywords) = true
  ∧ "" ∈ snd (_check_keywords text keywords).
Proof.
  intros Hin.
  assert (Hfound : "" ∈ snd (_check_keywords text keywords)).
  { apply check_keywords_found. split; [done|].
    apply str_contains_spec. by exists "", (str_lower text). }
  split; [|done].
  apply check_keywords_any. exists "". by apply check_keywords_found.
Qed.

(** X5.  On ASCII text the search does not see the case of the letters:
    two texts that differ in case only give the same boolean and the same
    list, as a text and its lowering do, and two keywords that differ in
    case only are found in the same texts. *)
Theorem check_keywords_ascii_case (text text' : string) (keywords : list string) :
  is_ascii text = true →
  is_ascii text' = true →
  ascii_lower text = ascii_lower text' →
  _check_keywords text keywords = _check_keywords text' keywords
  ∧ _check_keywords (ascii_lower text) keywords = _check_keywords text keywords
  ∧ ∀ kw kw',
      is_ascii kw = true → is_ascii kw' = true → ascii_lower kw = ascii_lower kw' →
      fst (_check_keywords text [kw]) = fst (_check_keywords text [kw']).
Proof.
  intros Ht Ht' Hcase.
  assert (Hl : str_lower text = str_lower text')
    by (unfold str_lower; by rewrite Ht, Ht', Hcase).
  assert (Hll : str_lower (ascii_lower text) = str_lower text)
    by (unfold str_lower; by rewrite is_ascii_lower, Ht, ascii_lower_idemp).
  split; [|split].
  - unfold _check_keywords. by rewrite Hl.
  - unfold _check_keywords. by rewrite Hll.
  - intros kw kw' Hk Hk' Hkcase.
    assert (Hkl : str_lower kw = str_lower kw')
      by (unfold str_lower; by rewrite Hk, Hk', Hkcase).
    unfold _check_keywords. cbn [fst]. rewrite !filter_cons, !filter_nil, Hkl.
    by destruct (decide (str_contains (str_lower kw') (str_lower text) = true)).
Qed.

(** X6.  Keyword lists add up: searching the concatenation of two lists
    gives the concatenation of the two found lists, and a claim exactly
    when one of the lists gives one. *)
Theorem check_keywords_app (text : string) (keywords1 keywords2 : list string) :
  _check_keywords text (keywords1 ++ keywords2)
  = (fst (_check_keywords text keywords1) || fst (_check_keywords text keywords2),
     snd (_check_keywords text keywords1) ++ snd (_check_keywords text keywords2)).
Proof.
  unfold _check_keywords. simpl. rewrite filter_app, length_app.
  f_equal.
  destruct (filter _ keywords1) as [|k1 l1], (filter _ keywords2) as [|k2 l2];
    simpl; repeat case_bool_decide; simpl; try done; lia.
Qed.

(** ** More on the transcript *)

Lemma append_nil_r (s : string) : s +:+ "" = s.
Proof. induction s as [|c s IH]; [done|]. by rewrite append_cons, IH. Qed.

(** A joined string holds each of its parts. *)
Lemma str_join_elem (sep s : string) (ss : list string) :
  s ∈ ss → ∃ pre post, str_join sep ss = pre +:+ s +:+ post.
Proof.
  induction ss as [|p ps IH]; [by intros ?%elem_of_nil|].
  intros [->|Hin]%elem_of_cons.
  - destruct ps as [|q ps].
    + exists "", "". simpl. by rewrite append_nil_r.
    + by exists "", (sep +:+ str_join sep (q :: ps)).
  - destruct (IH Hin) as (pre & post & Hj).
    destruct ps as [|q ps]; [by apply elem_of_nil in Hin|].
    exists (p +:+ sep +:+ pre), post.
    change (str_join sep (p :: q :: ps)) with (p +:+ sep +:+ str_join sep (q :: ps)).
    by rewrite Hj, !append_assoc.
Qed.

Lemma str_items_elem (parts : list pyval) (ss : list string) (s : string) :
  str_items parts = Returned ss → PStr s ∈ parts → s ∈ ss.
Proof.
  revert ss. induction parts as [|p parts IH]; intros ss Hss Hin.
  - by apply elem_of_nil in Hin.
  - destruct p as [| | |s'| |]; try discriminate Hss. simpl in Hss.
    destruct (str_items parts) as [e|ss']; [discriminate Hss|].
    injection Hss as <-. apply elem_of_cons in Hin as [[= ->]|Hin].
    + apply list_elem_of_here.
    + apply list_elem_of_further. by apply IH.
Qed.

Lemma str_items_raises (parts : list pyval) (e : exn) :
  str_items parts = Raised e → e = TypeError.
Proof.
  induction parts as [|p parts IH]; [discriminate|].
  destruct p as [| | |s| |]; simpl; try by intros [= <-].
  destruct (str_items parts) as [e'|ss]; [|discriminate].
  intros [= <-]. by apply IH.
Qed.

(** The extracted transcript holds the text of each of its lines. *)
Lemma extract_transcript_line (d : gmap string pyval) (lines : list pyval)
  (line : pyval) (s transcript : string) :
  dict_get d "transcript" (PList []) = PList lines →
  _extract_transcript (PDict d) = Returned transcript →
  line ∈ lines →
  transcript_part line = Some (PStr s) →
  ∃ pre post, transcript = pre +:+ s +:+ post.
Proof.
  intros Hlines Htr Hin Hpart. unfold _extract_transcript in Htr. simpl in Htr.
  rewrite Hlines in Htr.
  destruct (str_items (omap transcript_part lines)) as [e|ss] eqn:Hss;
    [discriminate Htr|].
  injection Htr as <-. apply str_join_elem.
  apply (str_items_elem _ _ _ Hss). apply list_elem_of_omap. eauto.
Qed.

(** ** More on scoring *)

(** A returned result comes from an accepted log, through the result
    [score_log] builds, and an update of the table that does not raise. *)
Lemma score_log_inv (config : ScoringConfig) (log : pyval) (tbl tbl' : stats_table)
  (result : ScoreResult) :
  score_log config log tbl = (tbl', Returned result) →
  fst (validate_log log) = true
  ∧ score_log_result config log = Returned result
  ∧ _update_statistics result tbl = (tbl', Returned ()).
Proof.
  unfold score_log. destruct (validate_log log) as [[] msg]; simpl; [|discriminate].
  destruct (score_log_result config log) as [e|result0]; [discriminate|].
  destruct (_update_statistics result0 tbl) as [tbl1 [e|[]]] eqn:Hupd;
    [discriminate|].
  intros [= <- <-]. by repeat split.
Qed.

(** The lists of found keywords and the violations of the result. *)
Lemma score_log_result_found (config : ScoringConfig) (log : pyval)
  (transcript : string) (result : ScoreResult) :
  score_log_result config log = Returned result →
  _extract_transcript log = Returned transcript →
  price_keywords_found result = snd (_check_keywords transcript (price_keywords config))
  ∧ legal_keywords_found result = snd (_check_keywords transcript (legal_keywords config))
  ∧ violations result = violations_spec (yaml_rules config) result.
Proof.
  unfold score_log_result. intros Hres Htr. rewrite Htr in Hres.
  destruct log as [| | | | |d]; try discriminate Htr.
  simpl in Hres. injection Hres as <-. simpl.
  split; [done|]. split; [done|]. by rewrite check_violations_refines.
Qed.

(** X7.  A keyword that occurs in a line of the transcript, whatever the
    case of its letters, is reported: on an ASCII transcript and for an
    ASCII keyword of the price list (of the legal list), the result has
    the price claim (the legal claim) and lists the keyword. *)
Theorem score_log_flags_line (config : ScoringConfig) (d : gmap string pyval)
  (tbl tbl' : stats_table) (result : ScoreResult) (lines : list pyval)
  (line : pyval) (s transcript kw : string) :
  score_log config (PDict d) tbl = (tbl', Returned result) →
  dict_get d "transcript" (PList []) = PList lines →
  line ∈ lines →
  transcript_part line = Some (PStr s) →
  _extract_transcript (PDict d) = Returned transcript →
  is_ascii transcript = true →
  is_ascii kw = true →
  str_contains (ascii_lower kw) (ascii_lower s) = true →
  (kw ∈ price_keywords config →
     price_claim result = true ∧ kw ∈ price_keywords_found result)
  ∧ (kw ∈ legal_keywords config →
       legal_claim result = true ∧ kw ∈ legal_keywords_found result).
Proof.
  intros Hscore Hlines Hin Hpart Htr Hascii Hkw Hocc.
  destruct (score_log_inv _ _ _ _ _ Hscore) as (_ & Hres & _).
  destruct (score_log_result_fields _ _ _ Hres)
    as (d' & t' & _ & Htr' & _ & Hprice & Hlegal & _).
  rewrite Htr in Htr'. injection Htr' as <-.
  destruct (score_log_result_found _ _ _ _ Hres Htr) as (Hpf & Hlf & _).
  destruct (extract_transcript_line d lines line s transcript Hlines Htr Hin Hpart)
    as (pre & post & ->).
  pose proof (str_lower_contains_part kw pre s post Hascii Hkw Hocc) as Hfound.
  rewrite Hprice, Hlegal, Hpf, Hlf.
  split; intros Hk; (split;
    [apply check_keywords_any; by exists kw | by apply check_keywords_found]).
Qed.

(** X8.  The risk of a returned result is at most 2 plus the placeholder
    bonus when that is positive.  With a bonus that is not positive it is
    at most the number of claims, and then a high bound of at least 2, as
    in the default configuration, keeps CRITICAL from ever being the
    level. *)
Theorem score_log_risk_bound (config : ScoringConfig) (log : pyval)
  (tbl tbl' : stats_table) (result : ScoreResult) :
  score_log config log tbl = (tbl', Returned result) →
  risk result ≤ 2 + Z.max 0 (placeholder_bonus config)
  ∧ (placeholder_bonus config ≤ 0 →
       risk result
       ≤ (if price_claim result then 1 else 0) + (if legal_claim result then 1 else 0))
  ∧ (placeholder_bonus config ≤ 0 →
       2 ≤ dict_get (risk_thresholds config) "high" 2 →
       risk_level result ≠ CRITICAL).
Proof.
  intros Hscore.
  destruct (score_log_inv _ _ _ _ _ Hscore) as (_ & Hres & _).
  destruct (score_log_result_fields _ _ _ Hres)
    as (_ & _ & _ & _ & _ & _ & _ & _ & _ & Hrisk & Hlevel).
  assert (Hraw : risk result ≤ 2 + Z.max 0 (placeholder_bonus config)
    ∧ (placeholder_bonus config ≤ 0 →
         risk result
         ≤ (if price_claim result then 1 else 0)
           + (if legal_claim result then 1 else 0))).
  { rewrite Hrisk. unfold raw_risk_score.
    destruct (price_claim result), (legal_claim result), (stop_triggered result),
      (placeholder_used result); simpl; lia. }
  destruct Hraw as [Hmax Hclaims]. split; [exact Hmax|]. split; [exact Hclaims|].
  intros Hbonus Hhigh. specialize (Hclaims Hbonus).
  assert (Htwo : risk result ≤ 2)
    by (destruct (price_claim result), (legal_claim result); lia).
  rewrite Hlevel. unfold _get_risk_level. case_leb; try discriminate. lia.
Qed.

Lemma rule_emits_silent (label phrase rule : string) (claim stop : bool) :
  claim = false ∨ stop = true → rule_emits label phrase rule claim stop = [].
Proof.
  unfold rule_emits.
  intros [-> | ->]; destruct (str_contains phrase (str_lower rule));
    try destruct claim; try destruct stop; done.
Qed.

Lemma rule_emits_length (label phrase rule : string) (claim stop : bool) :
  (length (rule_emits label phrase rule claim stop) ≤ 1)%nat.
Proof. unfold rule_emits. case_if; simpl; lia. Qed.

Lemma bind_nil_all {A B} (f : A → list B) (l : list A) :
  (∀ x, f x = []) → l ≫= f = [].
Proof.
  intros Hf. induction l as [|x l IH]; [done|]. by rewrite bind_cons, Hf, IH.
Qed.

Lemma bind_length_bound {A B} (f : A → list B) (l : list A) (n : nat) :
  (∀ x, length (f x) ≤ n)%nat → (length (l ≫= f) ≤ n * length l)%nat.
Proof.
  intros Hf. induction l as [|x l IH]; [simpl; lia|].
  rewrite bind_cons, length_app. specialize (Hf x). simpl. lia.
Qed.

(** X9.  A result without a claim has the risk 0 and no violation,
    whatever the stop and the result text; a result with a stop has no
    violation; and a rule set yields at most two violations for each of
    its rules. *)
Theorem score_log_violations_bounds (config : ScoringConfig) (log : pyval)
  (tbl tbl' : stats_table) (result : ScoreResult) :
  score_log config log tbl = (tbl', Returned result) →
  (price_claim result = false → legal_claim result = false →
     risk result = 0 ∧ violations result = [])
  ∧ (stop_triggered result = true → violations result = [])
  ∧ (length (violations result)
     ≤ 2 * (length (dict_get (default ∅ (yaml_rules config)) "forbidden" [])
            + length (dict_get (default ∅ (yaml_rules config)) "must_include" [])))%nat.
Proof.
  intros Hscore.
  destruct (score_log_inv _ _ _ _ _ Hscore) as (_ & Hres & _).
  destruct (score_log_result_fields _ _ _ Hres)
    as (d & transcript & _ & Htr & _ & _ & _ & _ & _ & Hrisk & _).
  destruct (score_log_result_found _ _ _ _ Hres Htr) as (_ & _ & Hviol).
  assert (Hsilent :
    (price_claim result = false ∧ legal_claim result = false)
    ∨ stop_triggered result = true →
    violations result = []).
  { intros Hquiet. rewrite Hviol. unfold violations_spec.
    destruct (yaml_rules config) as [rules|]; [|done].
    rewrite !bind_nil_all; [done | |];
      intros rule; unfold forbidden_emits, must_include_emits;
      rewrite !rule_emits_silent; try done; tauto. }
  split; [|split].
  - intros Hp Hl. split; [|by apply Hsilent; left].
    rewrite Hrisk, Hp, Hl. unfold raw_risk_score.
    destruct (stop_triggered result), (placeholder_used result); simpl; lia.
  - intros Hstop. apply Hsilent. by right.
  - rewrite Hviol. unfold violations_spec.
    destruct (yaml_rules config) as [rules|]; simpl; [|lia].
    rewrite length_app.
    pose proof (bind_length_bound (forbidden_emits result)
                  (dict_get rules "forbidden" []) 2) as Hf.
    pose proof (bind_length_bound (must_include_emits result)
                  (dict_get rules "must_include" []) 2) as Hm.
    assert (Hfe : ∀ rule, (length (forbidden_emits result rule) ≤ 2)%nat).
    { intros rule. unfold forbidden_emits. rewrite length_app.
      pose proof (rule_emits_length "Verstoß: " "price estimates without fact" rule
                    (price_claim result) (stop_triggered result)).
      pose proof (rule_emits_length "Verstoß: " "legal promises without fact" rule
                    (legal_claim result) (stop_triggered result)).
      lia. }
    assert (Hme : ∀ rule, (length (must_include_emits result rule) ≤ 2)%nat).
    { intros rule. unfold must_include_emits. rewrite length_app.
      pose proof (rule_emits_length "Fehlend: " "stop_required on price" rule
                    (price_claim result) (stop_triggered result)).
      pose proof (rule_emits_length "Fehlend: " "stop_required on legal" rule
                    (legal_claim result) (stop_triggered result)).
      lia. }
    specialize (Hf Hfe). specialize (Hm Hme). lia.
Qed.

(** ** More on the table *)

Lemma update_flags_counters (result : ScoreResult) (stats : AgentStatistics) :
  stat_agent_id (update_flags result stats) = stat_agent_id stats
  ∧ price_claims (update_flags result stats)
    = price_claims stats + (if price_claim result then 1 else 0)
  ∧ legal_claims (update_flags result stats)
    = legal_claims stats + (if legal_claim result then 1 else 0)
  ∧ stops_triggered (update_flags result stats)
    = stops_triggered stats + (if stop_triggered result then 1 else 0)
  ∧ placeholders_used (update_flags result stats)
    = placeholders_used stats + (if placeholder_used result then 1 else 0).
Proof.
  unfold update_flags.
  destruct (price_claim result), (legal_claim result), (stop_triggered result),
    (placeholder_used result), (is_critical result); simpl;
    repeat split; lia.
Qed.

(** What an observation that does not raise writes: the aggregate of the
    agent of the result, and nothing else. *)
Lemma update_statistics_effect (result : ScoreResult) (tbl tbl' : stats_table) :
  _update_statistics result tbl = (tbl', Returned ()) →
  ∃ k stats,
    hash_key (agent_id result) = Some k
    ∧ tbl' = <[k := stats]> tbl
    ∧ let old := default (AgentStatistics_new (PStr "unknown")) (tbl !! k) in
      stat_agent_id stats = agent_id result
      ∧ total_interactions stats = total_interactions old + 1
      ∧ total_risk_score stats = total_risk_score old + risk result
      ∧ price_claims stats = price_claims old + (if price_claim result then 1 else 0)
      ∧ legal_claims stats = legal_claims old + (if legal_claim result then 1 else 0)
      ∧ stops_triggered stats
        = stops_triggered old + (if stop_triggered result then 1 else 0)
      ∧ placeholders_used stats
        = placeholders_used old + (if placeholder_used result then 1 else 0)
      ∧ critical_incidents stats
        = critical_incidents old + (if is_critical result then 1 else 0).
Proof.
  unfold _update_statistics.
  destruct (hash_key (agent_id result)) as [k|]; [|discriminate].
  set (old := default (AgentStatistics_new (PStr "unknown")) (tbl !! k)).
  simpl. destruct (risk_levels old !! _) as [n|]; [|discriminate].
  intros [= <-]. eexists k, _. split; [done|]. split; [reflexivity|].
  simpl.
  destruct (update_flags_counters result
    (set_risk_levels
       (<[RiskLevel.value (risk_level result) := n + 1]> (risk_levels old))
       (set_total_risk_score (total_risk_score old + risk result)
          (set_total_interactions (total_interactions old + 1)
             (set_stat_agent_id (agent_id result) old)))))
    as (-> & -> & -> & -> & ->).
  rewrite update_flags_histogram.
  rewrite (proj1 (update_flags_totals _ _)).
  rewrite (proj1 (proj2 (update_flags_totals _ _))).
  by repeat split.
Qed.

(** On a table of consistent aggregates a call of [score_log] that raises
    has written nothing. *)
Lemma score_log_raised_unchanged (config : ScoringConfig) (log : pyval)
  (tbl tbl' : stats_table) (e : exn) :
  (∀ k s, tbl !! k = Some s → histogram_consistent s) →
  score_log config log tbl = (tbl', Raised e) →
  tbl' = tbl.
Proof.
  intros Htbl. unfold score_log.
  destruct (validate_log log) as [[] msg]; simpl; [|by intros [= <- _]].
  destruct (score_log_result config log) as [e'|result]; [by intros [= <- _]|].
  destruct (update_statistics_consistent result tbl Htbl) as [_ Hret].
  destruct (hash_key (agent_id result)) as [k|] eqn:Hk.
  - specialize (Hret (ltac:(eauto))).
    destruct (_update_statistics result tbl) as [tbl1 [e'|[]]]; simpl in *;
      discriminate.
  - unfold _update_statistics. rewrite Hk. by intros [= <- _].
Qed.


(** X11.  A call of [score_log] that returns has added its result to the
    aggregate of the agent of the result: one interaction, the risk, and
    one count for each flag of the result that is set and for a HIGH or
    CRITICAL level; that aggregate starts from zero when the agent is new
    and carries the agent it was last scored with; the aggregates of the
    other agents are untouched. *)
Theorem score_log_updates_agent (config : ScoringConfig) (log : pyval)
  (tbl tbl' : stats_table) (result : ScoreResult) :
  score_log config log tbl = (tbl', Returned result) →
  ∃ k stats,
    hash_key (agent_id result) = Some k
    ∧ tbl' !! k = Some stats
    ∧ (∀ k', k' ≠ k → tbl' !! k' = tbl !! k')
    ∧ let old := default (AgentStatistics_new (PStr "unknown")) (tbl !! k) in
      stat_agent_id stats = agent_id result
      ∧ total_interactions stats = total_interactions old + 1
      ∧ total_risk_score stats = total_risk_score old + risk result
      ∧ price_claims stats = price_claims old + (if price_claim result then 1 else 0)
      ∧ legal_claims stats = legal_claims old + (if legal_claim result then 1 else 0)
      ∧ stops_triggered stats
        = stops_triggered old + (if stop_triggered result then 1 else 0)
      ∧ placeholders_used stats
        = placeholders_used old + (if placeholder_used result then 1 else 0)
      ∧ critical_incidents stats
        = critical_incidents old + (if is_critical result then 1 else 0).
Proof.
  intros Hscore.
  destruct (score_log_inv _ _ _ _ _ Hscore) as (_ & _ & Hupd).
  destruct (update_statistics_effect result tbl tbl' Hupd)
    as (k & stats & Hk & -> & Hfields).
  exists k, stats. split; [done|]. split; [by rewrite lookup_insert_eq|].
  split; [|exact Hfields].
  intros k' Hne. by rewrite lookup_insert_ne.
Qed.

(** The counters stay within the interactions on every table a scorer
    can hold. *)
Lemma reachable_bounded (tbl : stats_table) :
  reachable tbl → ∀ k s, tbl !! k = Some s → counters_bounded k s.
Proof.
  intros Hreach.
  induction Hreach as [|config log tbl tbl' out Hreach IH Hscore|tbl _ _];
    intros k s.
  - unfold fresh_stats. by rewrite lookup_empty.
  - destruct out as [e|result].
    + rewrite (score_log_raised_unchanged config log tbl tbl' e
                 (reachable_consistent tbl Hreach) Hscore).
      apply IH.
    + destruct (score_log_inv _ _ _ _ _ Hscore) as (_ & Hres & Hupd).
      destruct (score_log_result_fields _ _ _ Hres)
        as (_ & _ & _ & _ & _ & _ & _ & _ & _ & Hrisk & _).
      assert (Hpos : 0 ≤ risk result) by (rewrite Hrisk; apply Z.le_max_l).
      destruct (update_statistics_effect result tbl tbl' Hupd)
        as (k0 & stats & Hk0 & -> & Hid & Hn & Hr & Hp & Hl & Hs & Hu & Hc).
      destruct (decide (k0 = k)) as [->|Hne];
        [|rewrite lookup_insert_ne by done; apply IH].
      rewrite lookup_insert_eq. intros [= <-].
      assert (Hold : ∀ old,
        old = default (AgentStatistics_new (PStr "unknown")) (tbl !! k) →
        0 ≤ total_interactions old ∧ 0 ≤ total_risk_score old
        ∧ 0 ≤ price_claims old ≤ total_interactions old
        ∧ 0 ≤ legal_claims old ≤ total_interactions old
        ∧ 0 ≤ stops_triggered old ≤ total_interactions old
        ∧ 0 ≤ placeholders_used old ≤ total_interactions old
        ∧ 0 ≤ critical_incidents old ≤ total_interactions old).
      { intros old ->. destruct (tbl !! k) as [o|] eqn:Ho; simpl.
        - destruct (IH k o Ho) as (_ & ? & ? & ? & ? & ? & ? & ?).
          repeat split; lia.
        - repeat split; lia. }
      specialize (Hold _ eq_refl). simpl in Hn, Hr, Hp, Hl, Hs, Hu, Hc.
      destruct Hold as (? & ? & ? & ? & ? & ? & ?).
      unfold counters_bounded. rewrite Hid, Hn, Hr, Hp, Hl, Hs, Hu, Hc.
      split; [exact Hk0|].
      destruct (price_claim result), (legal_claim result), (stop_triggered result),
        (placeholder_used result), (is_critical result); repeat split; lia.
  - unfold reset_statistics. by rewrite lookup_empty.
Qed.


(** X12.  On every table a scorer can hold, each aggregate is held under
    the key of the agent it names and has seen at least one interaction;
    its cumulative risk is not negative, and the claims, the stops, the
    placeholders and the critical incidents it counts are each between 0
    and the number of its interactions. *)
Theorem reachable_counters_bounded (tbl : stats_table) (k : hkey)
  (s : AgentStatistics) :
  reachable tbl →
  tbl !! k = Some s →
  hash_key (stat_agent_id s) = Some k
  ∧ 1 ≤ total_interactions s
  ∧ 0 ≤ total_risk_score s
  ∧ 0 ≤ price_claims s ≤ total_interactions s
  ∧ 0 ≤ legal_claims s ≤ total_interactions s
  ∧ 0 ≤ stops_triggered s ≤ total_interactions s
  ∧ 0 ≤ placeholders_used s ≤ total_interactions s
  ∧ 0 ≤ critical_incidents s ≤ total_interactions s.
Proof.
  intros Hreach Hs. exact (reachable_bounded tbl Hreach k s Hs).
Qed.

(** X13.  On every table a scorer can hold, the average risk of an
    aggregate is the quotient of its cumulative risk by its interactions,
    never the value kept for no interaction, and neither the average risk
    nor the stop rate is negative. *)
Theorem reachable_rates_nonneg (tbl : stats_table) (k : hkey) (s : AgentStatistics) :
  reachable tbl →
  tbl !! k = Some s →
  average_risk s
  = (inject_Z (total_risk_score s) / inject_Z (total_interactions s))%Q
  ∧ (0 <= average_risk s)%Q
  ∧ (0 <= stop_rate s)%Q.
Proof.
  intros Hreach Hs.
  destruct (reachable_bounded tbl Hreach k s Hs)
    as (_ & Hn & Hr & Hp & Hl & Hst & _).
  assert (Hdiv : ∀ a b : Z, 0 ≤ a → 0 < b → (0 <= inject_Z a / inject_Z b)%Q).
  { intros a b Ha Hb. apply Qle_shift_div_l.
    - change 0%Q with (inject_Z 0). by rewrite <- Zlt_Qlt.
    - rewrite Qmult_0_l. change 0%Q with (inject_Z 0). by rewrite <- Zle_Qle. }
  unfold average_risk, stop_rate, true_div.
  destruct (Z.eqb_spec (total_interactions s) 0) as [Hz|_]; [lia|].
  split; [reflexivity|]. split; [apply Hdiv; lia|].
  destruct (Z.eqb_spec (price_claims s + legal_claims s) 0) as [_|Hc]; [done|].
  apply Hdiv; lia.
Qed.

(** ** The batch summary: facts *)








(** ** The batch: facts *)



(** The loop of [score_directory] over two runs of files. *)
Lemma score_directory_loop_app (config : ScoringConfig)
  (files1 files2 : list file_content) (results : list ScoreResult) (tbl : stats_table) :
  score_directory_loop config (files1 ++ files2) results tbl
  = match score_directory_loop config files1 results tbl with
    | (tbl1, Returned results1) => score_directory_loop config files2 results1 tbl1
    | (tbl1, Raised e) => (tbl1, Raised e)
    end.
Proof.
  revert results tbl. induction files1 as [|file files1 IH]; intros results tbl.
  - done.
  - simpl. destruct (score_file config file tbl) as [tbl1 [e|result]].
    + destruct e; done.
    + apply IH.
Qed.

(** X16.  A file that is not JSON and a log that [validate_log] refuses
    are left out of the batch without a trace: the results and the table
    are those of the directory without that file. *)
Theorem score_directory_skips (config : ScoringConfig)
  (files1 files2 : list file_content) (file : file_content) (tbl : stats_table) :
  match file with
  | BadJson _ => True
  | Json log => fst (validate_log log) = false
  end →
  score_directory config (files1 ++ file :: files2) tbl
  = score_directory config (files1 ++ files2) tbl.
Proof.
  intros Hbad. unfold score_directory. rewrite !score_directory_loop_app.
  destruct (score_directory_loop config files1 [] tbl) as [tbl1 [e|results1]];
    [done|].
  simpl. destruct file as [msg|log]; simpl; [done|].
  unfold score_log. destruct (validate_log log) as [is_valid msg].
  simpl in Hbad. by subst is_valid.
Qed.

(** An accepted log with a transcript entry whose text is no string, or
    with an agent that cannot be hashed, raises [TypeError] on any table
    and writes nothing. *)
Lemma score_log_type_error (config : ScoringConfig) (d : gmap string pyval)
  (lines : list pyval) (tbl : stats_table) :
  fst (validate_log (PDict d)) = true →
  dict_get d "transcript" (PList []) = PList lines →
  forallb line_joinable lines = false ∨ hash_key (dict_get d "agent_id" PNone) = None →
  score_log config (PDict d) tbl = (tbl, Raised TypeError).
Proof.
  intros Hvalid Hlines Hbad. unfold score_log.
  destruct (validate_log (PDict d)) as [is_valid msg]. simpl in Hvalid.
  subst is_valid. simpl.
  destruct (_extract_transcript (PDict d)) as [e|transcript] eqn:Htr.
  - assert (He : e = TypeError).
    { unfold _extract_transcript in Htr. simpl in Htr. rewrite Hlines in Htr.
      destruct (str_items (omap transcript_part lines)) as [e'|ss] eqn:Hss;
        [|discriminate Htr].
      injection Htr as <-. by apply (str_items_raises _ _ Hss). }
    subst e. unfold score_log_result. by rewrite Htr.
  - destruct Hbad as [Hjoin|Hkey].
    + assert (Hsome : ∃ t, _extract_transcript (PDict d) = Returned t) by eauto.
      apply (extract_transcript_returns d lines Hlines) in Hsome. congruence.
    + destruct (score_log_result_returns config (PDict d) transcript Htr)
        as [result Hres].
      destruct (score_log_result_fields _ _ _ Hres) as (d' & _ & [= <-] & _ & Hid & _).
      rewrite Hres. unfold _update_statistics. by rewrite Hid, Hkey.
Qed.



(** X18.  [score_directory] catches [ValueError] only.  An accepted log
    with a transcript entry whose text is not a string, or with an agent
    that cannot be hashed, ends the batch with [TypeError]: the files
    after it are not scored and no result is returned, while the table
    keeps what the files before it have written. *)
Theorem score_directory_aborts (config : ScoringConfig)
  (files1 files2 : list file_content) (d : gmap string pyval) (lines : list pyval)
  (tbl tbl1 : stats_table) (results1 : list ScoreResult) :
  score_directory config files1 tbl = (tbl1, Returned results1) →
  fst (validate_log (PDict d)) = true →
  dict_get d "transcript" (PList []) = PList lines →
  forallb line_joinable lines = false ∨ hash_key (dict_get d "agent_id" PNone) = None →
  score_directory config (files1 ++ Json (PDict d) :: files2) tbl
  = (tbl1, Raised TypeError).
Proof.
  intros Hdir Hvalid Hlines Hbad. unfold score_directory in *.
  rewrite score_directory_loop_app, Hdir. simpl.
  by rewrite (score_log_type_error config d lines tbl1 Hvalid Hlines Hbad).
Qed.


(** ** Alerts: facts *)

Lemma alert_threshold_high (result : ScoreResult) :
  RiskLevel.ge (risk_level result) HIGH = is_critical result.
Proof. rewrite is_critical_level. by destruct (risk_level result). Qed.

(** X20.  Checking a list of results keeps the alerts raised before and
    appends one alert for each result whose level is at or above the
    threshold, in the order of the results, with the agent and the risk of
    that result; with the threshold HIGH of a new alert system these are
    the critical results, so their number is the critical count of the
    summary. *)
Theorem check_results_alerts (threshold : RiskLevel) (nows : list string)
  (results : list ScoreResult) (alerts : list Alert) :
  length nows = length results →
  ∃ new,
    check_results threshold nows results alerts = alerts ++ new
    ∧ alert_agent_id <$> new
      = agent_id <$> filter (λ r, RiskLevel.ge (risk_level r) threshold = true) results
    ∧ alert_risk_score <$> new
      = risk <$> filter (λ r, RiskLevel.ge (risk_level r) threshold = true) results
    ∧ alert_risk_level <$> new
      = (λ r, RiskLevel.value (risk_level r))
        <$> filter (λ r, RiskLevel.ge (risk_level r) threshold = true) results
    ∧ (threshold = HIGH →
         length new = length (filter (λ r, is_critical r = true) results)).
Proof.
  unfold check_results. revert nows alerts.
  induction results as [|r results IH]; intros nows alerts Hlen.
  - destruct nows; [|discriminate Hlen]. exists []. simpl.
    rewrite app_nil_r. by repeat split.
  - destruct nows as [|now nows]; [discriminate Hlen|].
    injection Hlen as Hlen.
    assert (Hstep :
      foldl (λ alerts nr, fst (AlertSystem_check threshold nr.1 nr.2 alerts))
        alerts (zip (now :: nows) (r :: results))
      = foldl (λ alerts nr, fst (AlertSystem_check threshold nr.1 nr.2 alerts))
          (fst (AlertSystem_check threshold now r alerts)) (zip nows results))
      by reflexivity.
    destruct (IH nows (fst (AlertSystem_check threshold now r alerts)) Hlen)
      as (new & Hfold & Hid & Hrisk & Hlevel & Hhigh).
    rewrite Hstep, Hfold.
    pose proof (alert_threshold_high r) as Hcrit.
    unfold AlertSystem_check.
    destruct (RiskLevel.ge (risk_level r) threshold) eqn:Hge; cbn [fst].
    + eexists (_ :: new).
      split; [by rewrite <- (assoc_L (++))|].
      rewrite !fmap_cons, Hid, Hrisk, Hlevel.
      rewrite (filter_cons_True (λ r, RiskLevel.ge (risk_level r) threshold = true))
        by done.
      rewrite !fmap_cons.
      split; [reflexivity|]. split; [reflexivity|]. split; [reflexivity|].
      intros ->. rewrite Hge in Hcrit.
      rewrite (filter_cons_True (λ r, is_critical r = true)) by done.
      simpl. by rewrite Hhigh.
    + exists new. split; [done|].
      rewrite (filter_cons_False (λ r, RiskLevel.ge (risk_level r) threshold = true))
        by congruence.
      split; [done|]. split; [done|]. split; [done|].
      intros ->. rewrite Hge in Hcrit.
      rewrite (filter_cons_False (λ r, is_critical r = true)) by congruence.
      by apply Hhigh.
Qed.

End Scorer.

(** ** Evaluations *)

Lemma get_risk_level_monotonic_witness :
  0 ≤ 0 ∧ 0 < 3
  ∧ dict_get (risk_thresholds default_config) "low" 0
      ≤ dict_get (risk_thresholds default_config) "medium" 1
  ∧ dict_get (risk_thresholds default_config) "medium" 1
      ≤ dict_get (risk_thresholds default_config) "high" 2
  ∧ RiskLevel.le (_get_risk_level default_config 0) (_get_risk_level default_config 3)
    = true.
Proof.
  assert (H1 : dict_get (risk_thresholds default_config) "low" 0
               ≤ dict_get (risk_thresholds default_config) "medium" 1)
    by (vm_compute; discriminate).
  assert (H2 : dict_get (risk_thresholds default_config) "medium" 1
               ≤ dict_get (risk_thresholds default_config) "high" 2)
    by (vm_compute; discriminate).
  split; [lia|]. split; [lia|]. split; [exact H1|]. split; [exact H2|].
  apply (get_risk_level_monotonic default_config 0 3); [lia | lia | exact H1 | exact H2].
Defined.

Lemma validate_log_spec_witness :
  fst (validate_log (PDict {[ "contact_name" := PStr "Test" ]})) = false
  ∧ validate_log (PDict {[ "contact_name" := PStr "Test" ]})
    = (false, "Pflichtfeld 'agent_id' fehlt").
Proof.
  pose proof (validate_log_spec (PDict {[ "contact_name" := PStr "Test" ]}))
    as (Hiff & _ & Hmissing & _).
  assert (Hid : ({[ "contact_name" := PStr "Test" ]} : gmap string pyval)
                !! "agent_id" = None) by reflexivity.
  split.
  - apply Hiff. right; left. eexists. split; [reflexivity | exact Hid].
  - apply (Hmissing _ eq_refl Hid).
Defined.

Lemma score_log_invalid_unchanged_witness :
  let tbl :=
    fst (score_log unicode_lower_caseless container_str_empty default_config
           log_scenario_C fresh_stats) in
  fst (validate_log (PStr "not a dict")) = false
  ∧ tbl !! HStr "AGENT_001" ≠ None
  ∧ score_log unicode_lower_caseless container_str_empty default_config
      (PStr "not a dict") tbl
    = (tbl, Raised (ValueError "Log muss ein Dictionary sein, erhalten: str")).
Proof.
  intros tbl. split; [reflexivity|]. split.
  - vm_compute. discriminate.
  - apply (score_log_invalid_unchanged unicode_lower_caseless container_str_empty
             default_config (PStr "not a dict") tbl).
    reflexivity.
Defined.

Lemma check_keywords_duplicates :
  ¬ NoDup (snd (_check_keywords unicode_lower_caseless "Der Preis in Euro" ["euro"; "euro"])).
Proof.
  assert (Hfound :
    snd (_check_keywords unicode_lower_caseless "Der Preis in Euro" ["euro"; "euro"])
    = ["euro"; "euro"]) by (vm_compute; reflexivity).
  rewrite Hfound. intros Hnd. apply NoDup_cons in Hnd as [Hnotin _].
  apply Hnotin. apply list_elem_of_here.
Qed.

Lemma check_keywords_spec_witness :
  NoDup ["euro"; "kostet"]
  ∧ NoDup (snd (_check_keywords unicode_lower_caseless "Das kostet 500 Euro" ["euro"; "kostet"])).
Proof.
  assert (Hnd : NoDup ["euro"; "kostet"]).
  { apply NoDup_cons. split.
    - intros Hin. apply list_elem_of_singleton in Hin. discriminate Hin.
    - apply NoDup_singleton. }
  split; [exact Hnd|].
  pose proof (check_keywords_spec unicode_lower_caseless "Das kostet 500 Euro"
                ["euro"; "kostet"]) as (_ & _ & _ & _ & Hkeep & _).
  exact (Hkeep Hnd).
Defined.

Lemma check_violations_spec_witness :
  _check_violations unicode_lower_caseless default_config log_scenario_C
    "Das kostet 100€ und ist gesetzlich geregelt"
    {| agent_id := PStr "AGENT_001"; contact := PNone; timestamp := PNone;
       price_claim := true; price_keywords_found := ["€"; "kostet"];
       legal_claim := true; legal_keywords_found := ["gesetz"];
       stop_triggered := false; placeholder_used := false;
       risk := 2; risk_level := HIGH; violations := [] |}
  = [].
Proof.
  refine (proj1 (check_violations_spec unicode_lower_caseless default_config _ _ _) _).
  reflexivity.
Defined.

Lemma statistics_rates_witness :
  ∃ s,
    foldl (λ tbl r, fst (_update_statistics r tbl)) fresh_stats
      [observation 0 LOW; observation 1 MEDIUM; observation 2 HIGH;
       observation 3 CRITICAL] !! HStr "A1" = Some s
    ∧ (average_risk s == 3 # 2)%Q.
Proof.
  apply (proj2 statistics_rates
           (observation 0 LOW) (observation 1 MEDIUM) (observation 2 HIGH)
           (observation 3 CRITICAL) (HStr "A1")).
  - repeat constructor.
  - reflexivity.
Defined.

Lemma score_log_risk_nonneg_witness :
  fst (validate_log log_scenario_D) = true
  ∧ match score_log unicode_lower_caseless container_str_empty harsh_config
            log_scenario_D fresh_stats with
    | (_, Returned result) => 0 ≤ risk result
    | (_, Raised _) => False
    end.
Proof.
  split; [reflexivity|].
  destruct (score_log unicode_lower_caseless container_str_empty harsh_config
              log_scenario_D fresh_stats) as [tbl' [e|result]] eqn:Hscore.
  - vm_compute in Hscore. discriminate Hscore.
  - apply (score_log_risk_nonneg unicode_lower_caseless container_str_empty harsh_config
             log_scenario_D fresh_stats tbl' result eq_refl Hscore).
Defined.

Lemma score_log_scenario_D_witness :
  ∃ tbl' result,
    score_log unicode_lower_caseless container_str_empty default_config log_scenario_D
      fresh_stats = (tbl', Returned result)
    ∧ price_claim result = true
    ∧ stop_triggered result = true
    ∧ raw_risk_score default_config (price_claim result) (legal_claim result)
        (stop_triggered result) (placeholder_used result) = 1 - 1 - 1
    ∧ risk result = 0
    ∧ risk_level result = LOW.
Proof.
  apply (score_log_scenario_D unicode_lower_caseless container_str_empty fresh_stats).
  apply reachable_fresh.
Defined.

Lemma statistics_histogram_invariant_witness :
  let tbl :=
    fst (score_log unicode_lower_caseless container_str_empty default_config
           log_scenario_C fresh_stats) in
  ∃ s,
    tbl !! HStr "AGENT_001" = Some s
    ∧ ∃ l m h c : Z,
        risk_levels s !! "LOW" = Some l
        ∧ risk_levels s !! "MEDIUM" = Some m
        ∧ risk_levels s !! "HIGH" = Some h
        ∧ risk_levels s !! "CRITICAL" = Some c
        ∧ total_interactions s = l + m + h + c
        ∧ critical_incidents s = h + c.
Proof.
  intros tbl.
  assert (Hreach : reachable unicode_lower_caseless container_str_empty tbl).
  { apply (reachable_score unicode_lower_caseless container_str_empty default_config
             log_scenario_C fresh_stats tbl
             (snd (score_log unicode_lower_caseless container_str_empty default_config
                     log_scenario_C fresh_stats))).
    - apply reachable_fresh.
    - apply surjective_pairing. }
  destruct (tbl !! HStr "AGENT_001") as [s|] eqn:Hs.
  - exists s. split; [reflexivity|].
    apply (statistics_histogram_invariant unicode_lower_caseless container_str_empty
             tbl (HStr "AGENT_001") s Hreach Hs).
  - vm_compute in Hs. discriminate Hs.
Defined.

(** Scenario C evaluated, the euro sign being caseless. *)
Example score_log_scenario_C :
  snd (score_log unicode_lower_caseless container_str_empty default_config
         log_scenario_C fresh_stats)
  = Returned
      {| agent_id := PStr "AGENT_001"; contact := PNone; timestamp := PNone;
         price_claim := true; price_keywords_found := ["€"; "kostet"];
         legal_claim := true; legal_keywords_found := ["gesetz"];
         stop_triggered := false; placeholder_used := false;
         risk := 2; risk_level := HIGH; violations := [] |}.
Proof. vm_compute. reflexivity. Qed.

Example py_str_int : py_str container_str_empty (PInt (-15)) = "-15".
Proof. vm_compute. reflexivity. Qed.

Example get_order_values :
  RiskLevel._get_order <$> [LOW; MEDIUM; HIGH; CRITICAL] = [0; 1; 2; 3]%nat.
Proof. reflexivity. Qed.

Lemma risk_level_total_order_witness :
  RiskLevel.le LOW MEDIUM = true ∧ RiskLevel.le MEDIUM CRITICAL = true
  ∧ RiskLevel.le LOW CRITICAL = true.
Proof.
  pose proof risk_level_total_order as (_ & Htrans & _).
  assert (H1 : RiskLevel.le LOW MEDIUM = true) by reflexivity.
  assert (H2 : RiskLevel.le MEDIUM CRITICAL = true) by reflexivity.
  split; [exact H1|]. split; [exact H2|].
  exact (Htrans LOW MEDIUM CRITICAL H1 H2).
Defined.

Lemma get_risk_level_mono_witness :
  -5 ≤ 7
  ∧ RiskLevel.le
      (_get_risk_level
         (with_thresholds default_config {[ "low" := 5; "medium" := 1; "high" := 3 ]}) (-5))
      (_get_risk_level
         (with_thresholds default_config {[ "low" := 5; "medium" := 1; "high" := 3 ]}) 7)
    = true.
Proof.
  split; [lia|].
  apply (get_risk_level_mono
           (with_thresholds default_config {[ "low" := 5; "medium" := 1; "high" := 3 ]})
           (-5) 7).
  lia.
Defined.

Lemma get_risk_level_onto_witness :
  (dict_get (risk_thresholds default_config) "low" 0
     < dict_get (risk_thresholds default_config) "medium" 1
   ∧ dict_get (risk_thresholds default_config) "medium" 1
     < dict_get (risk_thresholds default_config) "high" 2)
  ∧ ∃ score, _get_risk_level default_config score = MEDIUM.
Proof.
  assert (Hinc :
    dict_get (risk_thresholds default_config) "low" 0
      < dict_get (risk_thresholds default_config) "medium" 1
    ∧ dict_get (risk_thresholds default_config) "medium" 1
      < dict_get (risk_thresholds default_config) "high" 2)
    by (split; vm_compute; reflexivity).
  split; [exact Hinc|].
  exact (proj2 (get_risk_level_onto default_config) Hinc MEDIUM).
Defined.

Lemma check_keywords_empty_keyword_witness :
  "" ∈ ["euro"; ""]
  ∧ fst (_check_keywords unicode_lower_caseless "Guten Tag" ["euro"; ""]) = true.
Proof.
  assert (Hin : "" ∈ ["euro"; ""])
    by (apply list_elem_of_further, list_elem_of_here).
  split; [exact Hin|].
  exact (proj1 (check_keywords_empty_keyword unicode_lower_caseless "Guten Tag"
                  ["euro"; ""] Hin)).
Defined.

Lemma check_keywords_ascii_case_witness :
  _check_keywords unicode_lower_caseless "DAS KOSTET 5 EURO" ["euro"; "kostet"; "tarif"]
  = _check_keywords unicode_lower_caseless "das Kostet 5 Euro" ["euro"; "kostet"; "tarif"].
Proof.
  exact (proj1 (check_keywords_ascii_case unicode_lower_caseless
                  "DAS KOSTET 5 EURO" "das Kostet 5 Euro" ["euro"; "kostet"; "tarif"]
                  eq_refl eq_refl eq_refl)).
Defined.

Lemma score_log_flags_line_witness :
  ∃ tbl' result,
    score_log unicode_lower_caseless container_str_empty default_config
      log_scenario_D fresh_stats = (tbl', Returned result)
    ∧ price_claim result = true
    ∧ "preis" ∈ price_keywords_found result.
Proof.
  destruct (score_log unicode_lower_caseless container_str_empty default_config
              log_scenario_D fresh_stats) as [tbl' [e|result]] eqn:Hscore.
  { vm_compute in Hscore. discriminate Hscore. }
  exists tbl', result. split; [reflexivity|].
  refine (proj1 (score_log_flags_line unicode_lower_caseless container_str_empty
            default_config _ fresh_stats tbl' result
            [PDict {[ "text" := PStr "Sie fragen nach dem Preis?" ]}]
            (PDict {[ "text" := PStr "Sie fragen nach dem Preis?" ]})
            "Sie fragen nach dem Preis?" "Sie fragen nach dem Preis?" "preis"
            Hscore eq_refl _ eq_refl eq_refl eq_refl eq_refl eq_refl) _).
  - apply list_elem_of_here.
  - apply list_elem_of_In. vm_compute. tauto.
Defined.

Lemma score_log_risk_bound_witness :
  match score_log unicode_lower_caseless container_str_empty default_config
          log_scenario_C fresh_stats with
  | (_, Returned result) => risk result ≤ 2 ∧ risk_level result ≠ CRITICAL
  | (_, Raised _) => False
  end.
Proof.
  destruct (score_log unicode_lower_caseless container_str_empty default_config
              log_scenario_C fresh_stats) as [tbl' [e|result]] eqn:Hscore.
  - vm_compute in Hscore. discriminate Hscore.
  - destruct (score_log_risk_bound unicode_lower_caseless container_str_empty
                default_config log_scenario_C fresh_stats tbl' result Hscore)
      as (_ & Hclaims & Hlevel).
    assert (Hbonus : placeholder_bonus default_config ≤ 0) by (vm_compute; discriminate).
    assert (Hhigh : 2 ≤ dict_get (risk_thresholds default_config) "high" 2)
      by (vm_compute; discriminate).
    split; [|exact (Hlevel Hbonus Hhigh)].
    specialize (Hclaims Hbonus).
    destruct (price_claim result), (legal_claim result); lia.
Defined.

Lemma score_log_violations_bounds_witness :
  match score_log unicode_lower_caseless container_str_empty default_config
          log_scenario_D fresh_stats with
  | (_, Returned result) => stop_triggered result = true ∧ violations result = []
  | (_, Raised _) => False
  end.
Proof.
  destruct (score_log unicode_lower_caseless container_str_empty default_config
              log_scenario_D fresh_stats) as [tbl' [e|result]] eqn:Hscore.
  - vm_compute in Hscore. discriminate Hscore.
  - destruct (score_log_violations_bounds unicode_lower_caseless container_str_empty
                default_config log_scenario_D fresh_stats tbl' result Hscore)
      as (_ & Hstop & _).
    assert (Hs : stop_triggered result = true).
    { vm_compute in Hscore. by injection Hscore as _ <-. }
    split; [exact Hs | exact (Hstop Hs)].
Defined.


Lemma score_log_updates_agent_witness :
  match score_log unicode_lower_caseless container_str_empty default_config
          log_scenario_C fresh_stats with
  | (tbl', Returned result) =>
      ∃ stats, tbl' !! HStr "AGENT_001" = Some stats
               ∧ total_interactions stats = 1
               ∧ total_risk_score stats = risk result
  | (_, Raised _) => False
  end.
Proof.
  destruct (score_log unicode_lower_caseless container_str_empty default_config
              log_scenario_C fresh_stats) as [tbl' [e|result]] eqn:Hscore.
  - vm_compute in Hscore. discriminate Hscore.
  - destruct (score_log_updates_agent unicode_lower_caseless container_str_empty
                default_config log_scenario_C fresh_stats tbl' result Hscore)
      as (k & stats & Hk & Hlook & _ & _ & Hn & Hr & _).
    assert (Hid : agent_id result = PStr "AGENT_001").
    { vm_compute in Hscore. by injection Hscore as _ <-. }
    rewrite Hid in Hk. injection Hk as <-.
    exists stats. split; [exact Hlook|].
    unfold fresh_stats in Hn, Hr. rewrite lookup_empty in Hn, Hr. simpl in Hn, Hr.
    split; [exact Hn | lia].
Defined.

Lemma reachable_counters_bounded_witness :
  let tbl :=
    fst (score_log unicode_lower_caseless container_str_empty default_config
           log_scenario_D fresh_stats) in
  ∃ s, tbl !! HStr "AGENT_001" = Some s
       ∧ 1 ≤ total_interactions s
       ∧ 0 ≤ stops_triggered s ≤ total_interactions s.
Proof.
  intros tbl.
  assert (Hreach : reachable unicode_lower_caseless container_str_empty tbl).
  { apply (reachable_score unicode_lower_caseless container_str_empty default_config
             log_scenario_D fresh_stats tbl
             (snd (score_log unicode_lower_caseless container_str_empty
                     default_config log_scenario_D fresh_stats))).
    - apply reachable_fresh.
    - apply surjective_pairing. }
  destruct (tbl !! HStr "AGENT_001") as [s|] eqn:Hs.
  - exists s. split; [reflexivity|].
    destruct (reachable_counters_bounded unicode_lower_caseless container_str_empty
                tbl (HStr "AGENT_001") s Hreach Hs)
      as (_ & Hn & _ & _ & _ & Hst & _).
    split; [exact Hn | exact Hst].
  - vm_compute in Hs. discriminate Hs.
Defined.

Lemma reachable_rates_nonneg_witness :
  let tbl :=
    fst (score_log unicode_lower_caseless container_str_empty default_config
           log_scenario_C fresh_stats) in
  ∃ s, tbl !! HStr "AGENT_001" = Some s
       ∧ (0 <= average_risk s)%Q ∧ (0 <= stop_rate s)%Q.
Proof.
  intros tbl.
  assert (Hreach : reachable unicode_lower_caseless container_str_empty tbl).
  { apply (reachable_score unicode_lower_caseless container_str_empty default_config
             log_scenario_C fresh_stats tbl
             (snd (score_log unicode_lower_caseless container_str_empty
                     default_config log_scenario_C fresh_stats))).
    - apply reachable_fresh.
    - apply surjective_pairing. }
  destruct (tbl !! HStr "AGENT_001") as [s|] eqn:Hs.
  - exists s. split; [reflexivity|].
    exact (proj2 (reachable_rates_nonneg unicode_lower_caseless container_str_empty
                    tbl (HStr "AGENT_001") s Hreach Hs)).
  - vm_compute in Hs. discriminate Hs.
Defined.



Lemma score_directory_skips_witness :
  score_directory unicode_lower_caseless container_str_empty default_config
    ([Json log_scenario_C] ++ Json (PStr "not a dict") :: [Json log_scenario_D])
    fresh_stats
  = score_directory unicode_lower_caseless container_str_empty default_config
      ([Json log_scenario_C] ++ [Json log_scenario_D]) fresh_stats.
Proof.
  apply (score_directory_skips unicode_lower_caseless container_str_empty
           default_config [Json log_scenario_C] [Json log_scenario_D]
           (Json (PStr "not a dict")) fresh_stats).
  reflexivity.
Defined.


Lemma score_directory_aborts_witness :
  score_directory unicode_lower_caseless container_str_empty default_config
    ([Json log_scenario_C]
     ++ Json (PDict {[ "agent_id" := PList [PStr "A1"] ]}) :: [Json log_scenario_D])
    fresh_stats
  = (fst (score_log unicode_lower_caseless container_str_empty default_config
            log_scenario_C fresh_stats),
     Raised TypeError).
Proof.
  apply (score_directory_aborts unicode_lower_caseless container_str_empty
           default_config [Json log_scenario_C] [Json log_scenario_D]
           {[ "agent_id" := PList [PStr "A1"] ]} [] fresh_stats _
           [match snd (score_log unicode_lower_caseless container_str_empty
                         default_config log_scenario_C fresh_stats) with
            | Returned r => r
            | Raised _ => observation 0 LOW
            end]).
  - vm_compute. reflexivity.
  - reflexivity.
  - reflexivity.
  - right. reflexivity.
Defined.


Lemma check_results_alerts_witness :
  ∃ new,
    check_results container_str_empty HIGH ["t0"; "t1"; "t2"]
      [observation 0 LOW; observation 2 HIGH; observation 3 CRITICAL] []
    = [] ++ new
    ∧ alert_risk_score <$> new = [2; 3].
Proof.
  destruct (check_results_alerts container_str_empty HIGH ["t0"; "t1"; "t2"]
              [observation 0 LOW; observation 2 HIGH; observation 3 CRITICAL] []
              eq_refl) as (new & Hnew & _ & Hrisk & _).
  exists new. split; [exact Hnew | exact Hrisk].
Defined.
